(** * The symbol embedding map of [automata.tools.search.symbol_rank]

    A shallow embedding of [symbol_embedding_map.py]: the class
    [EmbeddingsProvider] with its similarity matrix, and the class
    [SymbolEmbeddingMap] with its constructor, [update_embeddings],
    [save]/[load], [_filter_symbols] and [_build_embedding_map].

    Python dictionaries are association lists in insertion order, exceptions
    are values of a sum type, and the file system together with the calls that
    leave the process (the embedding request, the cosine similarity, the
    logger) are threaded through a small state-and-exception monad. *)

From stdpp Require Import gmap strings list.

Set Default Proof Using "Type".

(** ** Exceptions *)

Inductive Exception : Type :=
  | ValueError (msg : string)
  | KeyError (key : string)
  | AttributeError (attr : string)
  | IndexError
  | FileNotFoundError (path : string)
  | CollaboratorError (msg : string).

(** [str(e)], as the f-strings of the constructor print it: the [str] of a
    [KeyError] is the [repr] of the missing key, quotes included. *)
Definition exception_str (e : Exception) : string :=
  match e with
  | ValueError msg => msg
  | KeyError key => "'" +:+ key +:+ "'"
  | AttributeError attr =>
      "'SymbolEmbeddingMap' object has no attribute '" +:+ attr +:+ "'"
  | IndexError => "list index out of range"
  | FileNotFoundError path => "No such file or directory: '" +:+ path +:+ "'"
  | CollaboratorError msg => msg
  end.

Definition result (A : Type) : Type := (Exception + A)%type.

(** ** Python [str] containment: [sub in s] *)

Fixpoint contains (sub s : string) : bool :=
  String.prefix sub s ||
  match s with
  | EmptyString => false
  | String _ rest => contains sub rest
  end.

(** ** Dictionaries

    A [dict] keeps its keys in insertion order and each key once.  Assigning
    to a key that is present replaces the value where it stands; assigning to
    a new key appends it. *)

Abbreviation Dict K V := (list (K * V)).

Section dict.
Context {K V : Type} `{EqDecision K}.

Fixpoint dict_get (d : Dict K V) (k : K) : option V :=
  match d with
  | [] => None
  | (k', v) :: rest => if decide (k' = k) then Some v else dict_get rest k
  end.

(** [k in d] *)
Definition dict_contains (d : Dict K V) (k : K) : bool :=
  match dict_get d k with Some _ => true | None => false end.

(** [d[k] = v] *)
Fixpoint dict_setitem (d : Dict K V) (k : K) (v : V) : Dict K V :=
  match d with
  | [] => [(k, v)]
  | (k', v') :: rest =>
      if decide (k' = k) then (k', v) :: rest
      else (k', v') :: dict_setitem rest k v
  end.

Definition dict_keys (d : Dict K V) : list K := d.*1.
Definition dict_values (d : Dict K V) : list V := d.*2.

(** [{k: v for k, v in items}] *)
Definition dict_comprehension (items : list (K * V)) : Dict K V :=
  foldl (fun d kv => dict_setitem d kv.1 kv.2) [] items.

(** The representation invariant of a dictionary: no key twice. *)
Definition dict_wf (d : Dict K V) : Prop := NoDup (dict_keys d).
End dict.

(** [enumerate(l)] *)
Definition enumerate {A : Type} (l : list A) : list (nat * A) :=
  zip (seq 0 (length l)) l.

(** ** Symbols and embeddings *)

(** Modelled from the spec: [Descriptor.PythonKinds] is declared in
    [automata.tools.search.local_types], which is not among the sources.  The
    six kinds the filter names, and the ordinary kinds the spec lists. *)
Inductive PythonKinds : Type :=
  | KLocal | KModule | KClass | KMethod | KValue
  | KMeta | KMacro | KParameter | KTypeParameter.

Global Instance PythonKinds_eq_dec : EqDecision PythonKinds.
Proof. solve_decision. Defined.

(** Modelled from the spec: [Symbol] is declared in
    [automata.tools.search.local_types], which is not among the sources.  An
    immutable identity value: two symbols are equal iff their URIs are. *)
Record Symbol : Type := { uri : string }.

Global Instance Symbol_eq_dec : EqDecision Symbol.
Proof. solve_decision. Defined.

(** Python floats are kept abstract: the code stores the literal [0.0] and
    whatever the similarity function returns, and computes nothing itself. *)
Class PyFloat : Type := { float : Type; float_zero : float }.

Section model.
Context `{PyFloat}.

(** Modelled from the spec: [SymbolEmbedding] is declared in
    [automata.tools.search.local_types], which is not among the sources. *)
Record SymbolEmbedding : Type := {
  symbol : Symbol;
  vector : list float;
  source_code : string;
}.

(** The two functions of [openai.embeddings_utils] behind an
    [EmbeddingsProvider]; a test double supplies its own.  The embedding
    request may raise, the cosine similarity is a function of two vectors. *)
Record EmbeddingsProvider : Type := {
  openai_get_embedding : string -> result (list float);
  cosine_similarity : list float -> list float -> float;
}.

(** [str(symbol_converter.convert_to_fst_object(symbol))]: the source text
    of a symbol, or the exception raised on the way. *)
Record SymbolConverter : Type := {
  convert_to_fst_object : Symbol -> result string;
}.

(** ** The world outside the interpreter *)

Inductive Event : Type :=
  | EvGetEmbedding (sym : Symbol) (text : string)
  | EvCosineSimilarity (a b : list float)
  | EvLogError (sym : Symbol) (e : Exception).

Record World : Type := {
  files : gmap string string;
  events : list Event;
}.

Definition emit (ev : Event) (w : World) : World :=
  {| files := files w; events := events w ++ [ev] |}.

Definition write_file (path content : string) (w : World) : World :=
  {| files := <[path := content]> (files w); events := events w |}.

(** ** The monad of statements *)

Definition Exec (A : Type) : Type := World -> result A * World.

Definition ret {A} (a : A) : Exec A := fun w => (inr a, w).
Definition raise {A} (e : Exception) : Exec A := fun w => (inl e, w).
Definition bind {A B} (m : Exec A) (k : A -> Exec B) : Exec B :=
  fun w =>
    match m w with
    | (inr a, w') => k a w'
    | (inl e, w') => (inl e, w')
    end.

(** [try: body except Exception as e: handler] *)
Definition try_except {A} (body : Exec A) (handler : Exception -> Exec A)
  : Exec A :=
  fun w =>
    match body w with
    | (inr a, w') => (inr a, w')
    | (inl e, w') => handler e w'
    end.

Definition lift {A} (r : result A) : Exec A := fun w => (r, w).
Definition tell (ev : Event) : Exec unit := fun w => (inr tt, emit ev w).
End model.

Declare Scope exec_scope.
Delimit Scope exec_scope with exec.
Notation "x <- m ;; k" := (bind m (fun x => k))
  (at level 100, m at next level, right associativity) : exec_scope.
Notation "m ;; k" := (bind m (fun _ => k))
  (at level 100, right associativity) : exec_scope.

(** ** What the module imports

    [Symbol.symbol_kind_by_suffix] and [Symbol.from_string] belong to
    [local_types]; [jsonpickle] is a third-party library.  [symbol_key] is the
    string [jsonpickle.encode] writes for a [Symbol] used as a dictionary key.
    [openai] is the provider that [EmbeddingsProvider()] builds when the
    caller passes none. *)
Class Externals `{PyFloat} : Type := {
  symbol_kind_by_suffix : Symbol -> PythonKinds;
  Symbol_from_string : string -> result Symbol;
  symbol_key : Symbol -> string;
  jsonpickle_encode : Dict Symbol SymbolEmbedding -> string;
  jsonpickle_decode : string -> result (Dict string SymbolEmbedding);
  openai : EmbeddingsProvider;
}.

Section operations.
Context `{Externals}.
Local Open Scope exec_scope.

(** *** Lists, files and loops *)

(** [l[i]] *)
Definition list_getitem {A} (l : list A) (i : nat) : Exec A :=
  match l !! i with
  | Some a => ret a
  | None => raise IndexError
  end.

(** [l[i] = a] *)
Definition list_setitem {A} (l : list A) (i : nat) (a : A) : Exec (list A) :=
  if decide (i < length l) then ret (<[i := a]> l) else raise IndexError.

(** [m[i][j]] *)
Definition matrix_getitem {A} (m : list (list A)) (i j : nat) : Exec A :=
  row <- list_getitem m i ;;
  list_getitem row j.

(** [m[i][j] = a]: row [i] is fetched and updated where it stands. *)
Definition matrix_setitem {A} (m : list (list A)) (i j : nat) (a : A)
  : Exec (list (list A)) :=
  row <- list_getitem m i ;;
  row' <- list_setitem row j a ;;
  list_setitem m i row'.

(** [for x in xs: body], the variables the body assigns passed along. *)
Fixpoint for_each {S A} (xs : list A) (body : S -> A -> Exec S) (s : S)
  : Exec S :=
  match xs with
  | [] => ret s
  | x :: rest => s' <- body s x ;; for_each rest body s'
  end.

(** [[f(x) for x in xs]] *)
Fixpoint list_comprehension {A B} (f : A -> Exec B) (xs : list A)
  : Exec (list B) :=
  match xs with
  | [] => ret []
  | x :: rest =>
      y <- f x ;; ys <- list_comprehension f rest ;; ret (y :: ys)
  end.

(** [os.path.exists(path)] *)
Definition os_path_exists (path : string) : Exec bool :=
  fun w => (inr (bool_decide (is_Some (files w !! path))), w).

(** [open(path, "w")]: the file is created, or emptied. *)
Definition open_w (path : string) : Exec unit :=
  fun w => (inr tt, write_file path "" w).

(** [f.write(text)] on a file opened for writing. *)
Definition file_write (path text : string) : Exec unit :=
  fun w =>
    (inr tt, write_file path (default "" (files w !! path) +:+ text) w).

(** [open(path, "r")] followed by [f.read()]. *)
Definition file_read (path : string) : Exec string :=
  fun w =>
    match files w !! path with
    | Some text => (inr text, w)
    | None => (inl (FileNotFoundError path), w)
    end.

(** *** class EmbeddingsProvider *)

(** [get_embedding]; the event records on behalf of which symbol the
    request is made. *)
Definition get_embedding (provider : EmbeddingsProvider) (sym : Symbol)
    (symbol_source : string) : Exec (list float) :=
  tell (EvGetEmbedding sym symbol_source) ;;
  lift (openai_get_embedding provider symbol_source).

Definition call_cosine_similarity (provider : EmbeddingsProvider)
    (a b : list float) : Exec float :=
  tell (EvCosineSimilarity a b) ;;
  ret (cosine_similarity provider a b).

Definition calculate_similarity_matrix (provider : EmbeddingsProvider)
    (embeddings : list (list float)) : Exec (list (list float)) :=
  let n := length embeddings in
  let results := replicate n (replicate n float_zero) in
  for_each (seq 0 n) (fun results i =>
    for_each (seq 0 n) (fun results j =>
      if decide (j <= i) then ret results (* i >= j: continue *)
      else
        a <- list_getitem embeddings i ;;
        b <- list_getitem embeddings j ;;
        similarity <- call_cosine_similarity provider a b ;;
        results <- matrix_setitem results i j similarity ;;
        mirrored <- matrix_getitem results i j ;;
        matrix_setitem results j i mirrored)
      results)
    results.

(** *** class SymbolEmbeddingMap *)

(** The attributes of an instance.  [embedding_provider] is assigned by the
    first statement of the constructor; the other three exist only once
    they have been assigned. *)
Record SymbolEmbeddingMap : Type := {
  embedding_provider : EmbeddingsProvider;
  embedding_map : option (Dict Symbol SymbolEmbedding);
  index_to_symbol : option (Dict nat Symbol);
  symbol_to_index : option (Dict Symbol nat);
}.

Definition set_embedding_map (self : SymbolEmbeddingMap)
    (d : Dict Symbol SymbolEmbedding) : SymbolEmbeddingMap :=
  {| embedding_provider := embedding_provider self;
     embedding_map := Some d;
     index_to_symbol := index_to_symbol self;
     symbol_to_index := symbol_to_index self |}.

Definition set_index_to_symbol (self : SymbolEmbeddingMap)
    (d : Dict nat Symbol) : SymbolEmbeddingMap :=
  {| embedding_provider := embedding_provider self;
     embedding_map := embedding_map self;
     index_to_symbol := Some d;
     symbol_to_index := symbol_to_index self |}.

Definition set_symbol_to_index (self : SymbolEmbeddingMap)
    (d : Dict Symbol nat) : SymbolEmbeddingMap :=
  {| embedding_provider := embedding_provider self;
     embedding_map := embedding_map self;
     index_to_symbol := index_to_symbol self;
     symbol_to_index := Some d |}.

(** [self.embedding_map], an [AttributeError] while it is unassigned. *)
Definition getattr_embedding_map (self : SymbolEmbeddingMap)
  : Exec (Dict Symbol SymbolEmbedding) :=
  match embedding_map self with
  | Some d => ret d
  | None => raise (AttributeError "embedding_map")
  end.

(** [d[symbol]] *)
Definition dict_getitem (d : Dict Symbol SymbolEmbedding) (sym : Symbol)
  : Exec SymbolEmbedding :=
  match dict_get d sym with
  | Some e => ret e
  | None => raise (KeyError (uri sym))
  end.

Definition _filter_symbols (symbols : list Symbol) : list Symbol :=
  foldl (fun filtered_symbols sym =>
    if contains "__init__" (uri sym) then filtered_symbols
    else if contains "setup" (uri sym) then filtered_symbols
    else if contains "local" (uri sym) then filtered_symbols
    else if contains "test" (uri sym) then filtered_symbols
    else
      let symbol_kind := symbol_kind_by_suffix sym in
      if bool_decide (symbol_kind = KLocal)
         || bool_decide (symbol_kind = KValue)
         || bool_decide (symbol_kind = KMeta)
         || bool_decide (symbol_kind = KMacro)
         || bool_decide (symbol_kind = KParameter)
         || bool_decide (symbol_kind = KTypeParameter)
      then filtered_symbols
      else filtered_symbols ++ [sym])
    [] symbols.

Definition _build_embedding_map (self : SymbolEmbeddingMap)
    (symbol_converter : SymbolConverter) (defined_symbols : list Symbol)
  : Exec (Dict Symbol SymbolEmbedding) :=
  let filtered_symbols := _filter_symbols defined_symbols in
  for_each filtered_symbols (fun embedding_map sym =>
    try_except
      (symbol_source <- lift (convert_to_fst_object symbol_converter sym) ;;
       symbol_embedding <-
         get_embedding (embedding_provider self) sym symbol_source ;;
       ret (dict_setitem embedding_map sym
              {| symbol := sym; vector := symbol_embedding;
                 source_code := symbol_source |}))
      (fun e => tell (EvLogError sym e) ;; ret embedding_map))
    [].

(** The keyword arguments the constructor looks up in [**kwargs]. *)
Record Kwargs : Type := {
  kw_symbol_converter : option SymbolConverter;
  kw_all_defined_symbols : option (list Symbol);
  kw_embedding_map : option (Dict Symbol SymbolEmbedding);
}.

(** [kwargs[key]] *)
Definition kwargs_getitem {A} (key : string) (value : option A) : Exec A :=
  match value with
  | Some a => ret a
  | None => raise (KeyError key)
  end.

(** [except KeyError as e: raise ValueError(f"Missing required argument: {e}")];
    any other exception passes through. *)
Definition missing_argument {A} (e : Exception) : Exec A :=
  match e with
  | KeyError _ =>
      raise (ValueError ("Missing required argument: " +:+ exception_str e))
  | _ => raise e
  end.

Definition __init__ (provider : option EmbeddingsProvider)
    (build_new_embedding_map load_embedding_map : bool) (kwargs : Kwargs)
  : Exec SymbolEmbeddingMap :=
  let self :=
    {| embedding_provider := default openai provider;
       embedding_map := None;
       index_to_symbol := None;
       symbol_to_index := None |} in
  if build_new_embedding_map && load_embedding_map then
    raise (ValueError
      "Cannot specify both build_new_embedding_map and load_embedding_map")
  else if build_new_embedding_map then
    try_except
      (symbol_converter <-
         kwargs_getitem "symbol_converter" (kw_symbol_converter kwargs) ;;
       all_defined_symbols <-
         kwargs_getitem "all_defined_symbols"
           (kw_all_defined_symbols kwargs) ;;
       built <- _build_embedding_map self symbol_converter
                  all_defined_symbols ;;
       ret (set_embedding_map self built))
      missing_argument
  else if load_embedding_map then
    try_except
      (loaded <- kwargs_getitem "embedding_map" (kw_embedding_map kwargs) ;;
       ret (set_embedding_map self loaded))
      missing_argument
  else ret self.

Definition generate_similarity_matrix (self : SymbolEmbeddingMap)
  : Exec (SymbolEmbeddingMap * list (list float)) :=
  keyed <- getattr_embedding_map self ;;
  let symbols := dict_keys keyed in
  valued <- getattr_embedding_map self ;;
  let embeddings := vector <$> dict_values valued in
  let self := set_index_to_symbol self
                (dict_comprehension (enumerate symbols)) in
  let self := set_symbol_to_index self
                (dict_comprehension
                   ((fun p => (p.2, p.1)) <$> enumerate symbols)) in
  matrix <- calculate_similarity_matrix (embedding_provider self)
              embeddings ;;
  ret (self, matrix).

(** The body of the [try] assigns to the map in its last statement, so an
    exception leaves the instance as the iteration found it. *)
Definition update_embeddings (symbol_converter : SymbolConverter)
    (symbols_to_update : list Symbol) (self : SymbolEmbeddingMap)
  : Exec SymbolEmbeddingMap :=
  for_each symbols_to_update (fun self sym =>
    try_except
      (symbol_source <- lift (convert_to_fst_object symbol_converter sym) ;;
       current <- getattr_embedding_map self ;;
       stale <-
         (if negb (dict_contains current sym) then ret true
          else
            stored <- dict_getitem current sym ;;
            ret (bool_decide (source_code stored <> symbol_source))) ;;
       if (stale : bool) then
         symbol_embedding <-
           get_embedding (embedding_provider self) sym symbol_source ;;
         target <- getattr_embedding_map self ;;
         ret (set_embedding_map self
                (dict_setitem target sym
                   {| symbol := sym; vector := symbol_embedding;
                      source_code := symbol_source |}))
       else ret self)
      (fun e => tell (EvLogError sym e) ;; ret self))
    self.

Definition save (self : SymbolEmbeddingMap) (output_embedding_path : string)
  : Exec unit :=
  present <- os_path_exists output_embedding_path ;;
  if (present : bool) then
    raise (ValueError
      "output_embedding_path must be a path to a non-existing file.")
  else
    open_w output_embedding_path ;;
    to_encode <- getattr_embedding_map self ;;
    let encoded_embedding := jsonpickle_encode to_encode in
    file_write output_embedding_path encoded_embedding.

Definition load (input_embedding_path : string) : Exec SymbolEmbeddingMap :=
  present <- os_path_exists input_embedding_path ;;
  if negb present then
    raise (ValueError
      "input_embedding_path must be a path to an existing file.")
  else
    text <- file_read input_embedding_path ;;
    embedding_map_str_keys <- lift (jsonpickle_decode text) ;;
    items <- list_comprehension
               (fun kv => key <- lift (Symbol_from_string kv.1) ;;
                          ret (key, kv.2))
               embedding_map_str_keys ;;
    __init__ None false true
      {| kw_symbol_converter := None;
         kw_all_defined_symbols := None;
         kw_embedding_map := Some (dict_comprehension items) |}.
End operations.

(** * The tool wrapper of [spork.tools.python_tools]

    [PythonWriterToolBuilder.python_writer_wrapper] of
    [python_writer_tool_builder.py].  A Python [str] is a list of characters;
    the characters, which of them [str.strip] takes for whitespace, and the
    [PythonWriter] behind the builder are kept abstract. *)

Class PyChar : Type := {
  char : Type;
  char_eq_dec :: EqDecision char;
  of_ascii : Ascii.ascii -> char;
  isspace : char -> bool;
}.

(** A string literal of the source. *)
Definition literal `{PyChar} (s : string) : list char :=
  of_ascii <$> String.list_ascii_of_string s.

(** The character [","], code point 44. *)
Definition comma `{PyChar} : char := of_ascii (Ascii.ascii_of_nat 44).

(** [python_writer.py] is not among the sources: [modify_code_state] changes
    the state of the writer and may raise. *)
Class PythonWriter `{PyChar} : Type := {
  Writer : Type;
  modify_code_state : list char -> list char -> Writer -> result unit * Writer;
}.

Section writer_tool.
Context `{PythonWriter}.

(** [s.split(sep)] for a separator of one character. *)
Fixpoint split (sep : char) (s : list char) : list (list char) :=
  match s with
  | [] => [[]]
  | c :: rest =>
      if decide (c = sep) then [] :: split sep rest
      else
        match split sep rest with
        | [] => [[c]]
        | piece :: pieces => (c :: piece) :: pieces
        end
  end.

(** [sep.join(pieces)] *)
Fixpoint join (sep : char) (pieces : list (list char)) : list char :=
  match pieces with
  | [] => []
  | piece :: rest =>
      match rest with
      | [] => piece
      | _ :: _ => piece ++ sep :: join sep rest
      end
  end.

(** [s.lstrip()] *)
Fixpoint lstrip (s : list char) : list char :=
  match s with
  | [] => []
  | c :: rest => if isspace c then lstrip rest else s
  end.

(** [s.strip()] *)
Definition strip (s : list char) : list char :=
  reverse (lstrip (reverse (lstrip s))).

Definition python_writer_wrapper (input_str : list char) (writer : Writer)
  : result (list char) * Writer :=
  match split comma input_str !! 0 with
  | None => (inl IndexError, writer)
  | Some path =>
      let code :=
        strip (join comma
                 (drop 1 (split comma input_str))) in
      match modify_code_state path code writer with
      | (inl e, writer') => (inl e, writer')
      | (inr _, writer') => (inr (literal "Success"), writer')
      end
  end.
End writer_tool.

(** ** A small instance to run the model on

    Integers stand for floats, the dot product for the cosine similarity, the
    URI for the string form of a symbol, and the kind is read off the last
    characters of the URI. *)
Module Sample.
Definition Zfloat : PyFloat := {| float := Z; float_zero := 0%Z |}.
#[local] Existing Instance Zfloat.

Definition ends_with (suffix s : string) : bool :=
  let n := String.length s in
  let m := String.length suffix in
  bool_decide (m <= n) && String.eqb (String.substring (n - m) m s) suffix.

Definition kind_by_suffix (sym : Symbol) : PythonKinds :=
  if ends_with "/" (uri sym) then KModule
  else if ends_with "#" (uri sym) then KClass
  else if ends_with ")." (uri sym) then KMethod
  else if ends_with ")" (uri sym) then KParameter
  else if ends_with "]" (uri sym) then KTypeParameter
  else if ends_with "!" (uri sym) then KMacro
  else if ends_with ":" (uri sym) then KMeta
  else if ends_with "." (uri sym) then KValue
  else KLocal.

Definition dot (a b : list Z) : Z := foldr Z.add 0%Z (zip_with Z.mul a b).

(** A provider that refuses the text ["?"] and otherwise answers with the
    length of the text and a constant. *)
Definition embed (text : string) : result (list Z) :=
  if String.eqb text "?" then inl (CollaboratorError "rate limit")
  else inr [Z.of_nat (String.length text); 1%Z].

Definition provider : @EmbeddingsProvider Zfloat :=
  {| openai_get_embedding := embed; cosine_similarity := dot |}.

Definition A : Symbol := {| uri := "pkg/mod/A#" |}.
Definition B : Symbol := {| uri := "pkg/mod/B#" |}.
Definition C : Symbol := {| uri := "pkg/mod/C#run()." |}.
Definition T : Symbol := {| uri := "pkg/my_test_module/Foo#" |}.
Definition P : Symbol := {| uri := "pkg/mod/C#run().(arg)" |}.

(** A symbol the converter below does not know. *)
Definition D : Symbol := {| uri := "pkg/mod/D#" |}.

(** A converter that knows the five symbols above; [B] resolves to the text
    the provider refuses. *)
Definition resolve (sym : Symbol) : result string :=
  if decide (sym = A) then inr "class A: pass"
  else if decide (sym = B) then inr "?"
  else if decide (sym = C) then inr "def run(self, arg): return arg"
  else if decide (sym = T) then inr "class Foo: pass"
  else if decide (sym = P) then inr "arg"
  else inl (CollaboratorError "unknown symbol").

Definition converter : SymbolConverter :=
  {| convert_to_fst_object := resolve |}.

Definition entry (sym : Symbol) (v : list Z) (src : string)
  : @SymbolEmbedding Zfloat :=
  {| symbol := sym; vector := v; source_code := src |}.

Definition stored : Dict Symbol (@SymbolEmbedding Zfloat) :=
  [ (A, entry A [13%Z; 1%Z] "class A: pass");
    (C, entry C [3%Z; 4%Z] "def run(self): pass") ].

(** A serialization that writes the keys and texts of the one map above and
    reads nothing else back. *)
Definition encode (d : Dict Symbol (@SymbolEmbedding Zfloat)) : string :=
  String.concat ";" ((fun kv => uri kv.1 +:+ "=" +:+ source_code kv.2) <$> d).

Definition decode (text : string)
  : result (Dict string (@SymbolEmbedding Zfloat)) :=
  if String.eqb text (encode stored)
  then inr (prod_map uri id <$> reverse stored)
  else inl (CollaboratorError "not a pickled map").

Definition externals : @Externals Zfloat :=
  {| symbol_kind_by_suffix := kind_by_suffix;
     Symbol_from_string := fun s => inr {| uri := s |};
     symbol_key := uri;
     jsonpickle_encode := encode;
     jsonpickle_decode := decode;
     openai := provider |}.

Definition instance (d : option (Dict Symbol (@SymbolEmbedding Zfloat)))
  : @SymbolEmbeddingMap Zfloat :=
  {| embedding_provider := provider;
     embedding_map := d;
     index_to_symbol := None;
     symbol_to_index := None |}.

Definition world0 : @World Zfloat := {| files := ∅; events := [] |}.

(** A world in which [out.json] holds a file already. *)
Definition world1 : @World Zfloat :=
  {| files := {["out.json" := "{}"]}; events := [] |}.

(** A map of three entries. *)
Definition stored3 : Dict Symbol (@SymbolEmbedding Zfloat) :=
  stored ++ [(B, entry B [2%Z; 2%Z] "class B: pass")].

Definition no_kwargs : @Kwargs Zfloat :=
  {| kw_symbol_converter := None;
     kw_all_defined_symbols := None;
     kw_embedding_map := None |}.
(** A map whose one entry is what the provider answers for its text. *)
Definition embedded_map : Dict Symbol (@SymbolEmbedding Zfloat) :=
  [ (A, entry A [13%Z; 1%Z] "class A: pass") ].

(** The world after [stored] was saved to [out.json]. *)
Definition saved_world : @World Zfloat :=
  write_file "out.json" (encode stored) world0.

(** Externals whose decoder always returns three items, the second under a
    key that [Symbol.from_string] rejects. *)
Definition strict_from_string (s : string) : result Symbol :=
  if String.prefix "pkg/" s then inr {| uri := s |}
  else inl (ValueError ("Invalid symbol_str: " +:+ s)).

Definition strict_decode (text : string)
  : result (Dict string (@SymbolEmbedding Zfloat)) :=
  inr [ ("pkg/mod/A#", entry A [13%Z; 1%Z] "class A: pass");
        ("oops", entry B [2%Z; 2%Z] "class B: pass");
        ("pkg/mod/C#run().", entry C [3%Z; 4%Z] "def run(self): pass") ].

Definition strict_externals : @Externals Zfloat :=
  {| symbol_kind_by_suffix := kind_by_suffix;
     Symbol_from_string := strict_from_string;
     symbol_key := uri;
     jsonpickle_encode := encode;
     jsonpickle_decode := strict_decode;
     openai := provider |}.

(** Characters below 256, with the whitespace [str.isspace] knows there. *)
Definition latin1 : PyChar :=
  {| char := Ascii.ascii;
     of_ascii := id;
     isspace := fun c =>
       bool_decide (Ascii.nat_of_ascii c ∈
         [9; 10; 11; 12; 13; 28; 29; 30; 31; 32; 133; 160]) |}.

(** A writer that records the calls of [modify_code_state]. *)
#[local] Existing Instance latin1.

Definition record_call (path code : list Ascii.ascii)
    (calls : list (string * string)) : result unit * list (string * string) :=
  (inr tt,
   calls ++ [(String.string_of_list_ascii path,
              String.string_of_list_ascii code)]).

Definition recorder : @PythonWriter latin1 :=
  {| Writer := list (string * string);
     modify_code_state := record_call |}.

(** A Python string, and the calls a recorder has seen. *)
Definition chars (s : string) : list (@char latin1) :=
  String.list_ascii_of_string s.

Definition calls (l : list (string * string)) : @Writer latin1 recorder := l.
End Sample.

(** ** The vocabulary of the properties *)

(** [sub] occurs somewhere in [s]. *)
Definition substring_of (sub s : string) : Prop :=
  exists pre post, s = pre +:+ sub +:+ post.

Definition excluded_names : list string :=
  ["__init__"; "setup"; "local"; "test"].

Definition excluded_kinds : list PythonKinds :=
  [KLocal; KValue; KMeta; KMacro; KParameter; KTypeParameter].

Section vocabulary.
Context `{Externals}.

(** A symbol the full build keeps: none of the names occurs in its URI and
    its kind is none of the excluded ones. *)
Definition retained (sym : Symbol) : Prop :=
  Forall (fun name => ~ substring_of name (uri sym)) excluded_names /\
  symbol_kind_by_suffix sym ∉ excluded_kinds.

(** The content of an embedding map. *)
Definition triples (d : Dict Symbol SymbolEmbedding)
  : list (Symbol * list float * string) :=
  (fun kv => (kv.1, vector kv.2, source_code kv.2)) <$> d.

(** The world after some more events. *)
Definition add_events (new : list Event) (w : World) : World :=
  {| files := files w; events := events w ++ new |}.

(** [m[i][j]], where it exists. *)
Definition entry_of (m : list (list float)) (i j : nat) : option float :=
  row ← m !! i; row !! j.

(** The symbol resolves and its text is embedded. *)
Definition embeds (provider : EmbeddingsProvider) (conv : SymbolConverter)
    (sym : Symbol) : bool :=
  match convert_to_fst_object conv sym with
  | inr text =>
      match openai_get_embedding provider text with
      | inr _ => true
      | inl _ => false
      end
  | inl _ => false
  end.

(** The entry a symbol gets when it resolves and its text is embedded. *)
Definition embedding_of (provider : EmbeddingsProvider)
    (conv : SymbolConverter) (sym : Symbol) : option SymbolEmbedding :=
  match convert_to_fst_object conv sym with
  | inr text =>
      match openai_get_embedding provider text with
      | inr v => Some {| symbol := sym; vector := v; source_code := text |}
      | inl _ => None
      end
  | inl _ => None
  end.

(** One iteration of [_build_embedding_map], seen from the map. *)
Definition built_with (provider : EmbeddingsProvider)
    (conv : SymbolConverter) (d : Dict Symbol SymbolEmbedding)
    (sym : Symbol) : Dict Symbol SymbolEmbedding :=
  match embedding_of provider conv sym with
  | Some e => dict_setitem d sym e
  | None => d
  end.

(** One iteration of [update_embeddings] on an assigned map [d], as a
    relation between [d], the symbol, the map afterwards and the events of
    the iteration. *)
Inductive refreshed (provider : EmbeddingsProvider) (conv : SymbolConverter)
    (d : Dict Symbol SymbolEmbedding) (sym : Symbol)
  : Dict Symbol SymbolEmbedding -> list Event -> Prop :=
  | refreshed_unresolved e :
      convert_to_fst_object conv sym = inl e ->
      refreshed provider conv d sym d [EvLogError sym e]
  | refreshed_current text stored :
      convert_to_fst_object conv sym = inr text ->
      dict_get d sym = Some stored ->
      source_code stored = text ->
      refreshed provider conv d sym d []
  | refreshed_refused text e :
      convert_to_fst_object conv sym = inr text ->
      (forall stored, dict_get d sym = Some stored ->
                      source_code stored <> text) ->
      openai_get_embedding provider text = inl e ->
      refreshed provider conv d sym d
        [EvGetEmbedding sym text; EvLogError sym e]
  | refreshed_embedded text v :
      convert_to_fst_object conv sym = inr text ->
      (forall stored, dict_get d sym = Some stored ->
                      source_code stored <> text) ->
      openai_get_embedding provider text = inr v ->
      refreshed provider conv d sym
        (dict_setitem d sym
           {| symbol := sym; vector := v; source_code := text |})
        [EvGetEmbedding sym text].

(** The iterations over a list of symbols, one after the other. *)
Inductive refreshed_all (provider : EmbeddingsProvider)
    (conv : SymbolConverter)
  : Dict Symbol SymbolEmbedding -> list Symbol ->
    Dict Symbol SymbolEmbedding -> list Event -> Prop :=
  | refreshed_nil d : refreshed_all provider conv d [] d []
  | refreshed_cons d sym d1 new1 syms d2 new2 :
      refreshed provider conv d sym d1 new1 ->
      refreshed_all provider conv d1 syms d2 new2 ->
      refreshed_all provider conv d (sym :: syms) d2 (new1 ++ new2).

(** An [n]-by-[n] matrix. *)
Definition square (n : nat) (m : list (list float)) : Prop :=
  length m = n /\ Forall (fun row => length row = n) m.

(** The index pairs the two nested loops over [range(n)] go through, in the
    order they do. *)
Definition index_pairs (n : nat) : list (nat * nat) :=
  i ← seq 0 n; (fun j => (i, j)) <$> seq 0 n.

(** The similarity requests made while going through [pairs]: one for each
    pair above the diagonal. *)
Definition cosine_events (embeddings : list (list float))
    (pairs : list (nat * nat)) : list Event :=
  (fun p => EvCosineSimilarity (embeddings !!! p.1) (embeddings !!! p.2))
    <$> filter (fun p => p.1 < p.2) pairs.

(** The entry at row [a] and column [b] once the pairs of [done] have been
    gone through. *)
Definition computed (provider : EmbeddingsProvider)
    (embeddings : list (list float)) (done : list (nat * nat)) (a b : nat)
  : float :=
  if decide (a < b /\ (a, b) ∈ done)
  then cosine_similarity provider (embeddings !!! a) (embeddings !!! b)
  else if decide (b < a /\ (b, a) ∈ done)
  then cosine_similarity provider (embeddings !!! b) (embeddings !!! a)
  else float_zero.
(** One iteration of the loop of [_filter_symbols]. *)
Definition filter_step (filtered_symbols : list Symbol) (sym : Symbol)
  : list Symbol :=
  if contains "__init__" (uri sym) then filtered_symbols
  else if contains "setup" (uri sym) then filtered_symbols
  else if contains "local" (uri sym) then filtered_symbols
  else if contains "test" (uri sym) then filtered_symbols
  else
    let symbol_kind := symbol_kind_by_suffix sym in
    if bool_decide (symbol_kind = KLocal)
       || bool_decide (symbol_kind = KValue)
       || bool_decide (symbol_kind = KMeta)
       || bool_decide (symbol_kind = KMacro)
       || bool_decide (symbol_kind = KParameter)
       || bool_decide (symbol_kind = KTypeParameter)
    then filtered_symbols
    else filtered_symbols ++ [sym].

(** The body of the inner loop of [calculate_similarity_matrix]. *)
Definition similarity_cell (provider : EmbeddingsProvider)
    (embeddings : list (list float)) (i : nat) (results : list (list float))
    (j : nat) : Exec (list (list float)) :=
  if decide (j <= i) then ret results
  else
    bind (list_getitem embeddings i) (fun a =>
    bind (list_getitem embeddings j) (fun b =>
    bind (call_cosine_similarity provider a b) (fun similarity =>
    bind (matrix_setitem results i j similarity) (fun results =>
    bind (matrix_getitem results i j) (fun mirrored =>
    matrix_setitem results j i mirrored))))).

(** What holds of [results] once the pairs [done] have been gone through. *)
Definition matrix_inv (provider : EmbeddingsProvider)
    (embeddings : list (list float)) (done : list (nat * nat))
    (m : list (list float)) : Prop :=
  square (length embeddings) m /\
  forall a b, a < length embeddings -> b < length embeddings ->
    entry_of m a b = Some (computed provider embeddings done a b).
(** The events of one iteration of [_build_embedding_map]. *)
Definition build_events (provider : EmbeddingsProvider)
    (conv : SymbolConverter) (sym : Symbol) : list Event :=
  match convert_to_fst_object conv sym with
  | inl e => [EvLogError sym e]
  | inr text =>
      match openai_get_embedding provider text with
      | inl e => [EvGetEmbedding sym text; EvLogError sym e]
      | inr _ => [EvGetEmbedding sym text]
      end
  end.

(** An embedding request. *)
Definition is_request (ev : Event) : bool :=
  match ev with
  | EvGetEmbedding _ _ => true
  | _ => false
  end.

(** The symbol resolves to some text. *)
Definition resolves (conv : SymbolConverter) (sym : Symbol) : bool :=
  match convert_to_fst_object conv sym with
  | inr _ => true
  | inl _ => false
  end.

(** Every entry sits under its own symbol and its vector is what the
    provider answers for its source text. *)
Definition consistent (provider : EmbeddingsProvider)
    (d : Dict Symbol SymbolEmbedding) : Prop :=
  forall s e,
    dict_get d s = Some e ->
    symbol e = s /\
    openai_get_embedding provider (source_code e) = inr (vector e).

(** A listed symbol that resolves and is embedded has an entry for the text
    it resolves to. *)
Definition settled (provider : EmbeddingsProvider) (conv : SymbolConverter)
    (d : Dict Symbol SymbolEmbedding) (s : Symbol) : Prop :=
  forall text v,
    convert_to_fst_object conv s = inr text ->
    openai_get_embedding provider text = inr v ->
    exists e, dict_get d s = Some e /\ source_code e = text.

(** Every entry is the one the converter and the provider give now. *)
Definition up_to_date (provider : EmbeddingsProvider)
    (conv : SymbolConverter) (d : Dict Symbol SymbolEmbedding) : Prop :=
  forall s e, dict_get d s = Some e -> embedding_of provider conv s = Some e.
(** The comprehension of [load] that reads the keys back. *)
Definition read_keys (items : Dict string SymbolEmbedding)
  : Exec (list (Symbol * SymbolEmbedding)) :=
  list_comprehension
    (fun kv => bind (lift (Symbol_from_string kv.1))
                 (fun key => ret (key, kv.2)))
    items.
(** What the handler of [update_embeddings] logs for a symbol while the map
    is unassigned: the exception of the converter when it raises, which it
    does before the map is looked at, and the [AttributeError] of the missing
    attribute otherwise. *)
Definition unassigned_log (conv : SymbolConverter) (sym : Symbol) : Event :=
  EvLogError sym
    match convert_to_fst_object conv sym with
    | inl e => e
    | inr _ => AttributeError "embedding_map"
    end.
End vocabulary.

(** * Properties *)

(** ** Containment of strings *)

Lemma prefix_spec (p s : string) :
  String.prefix p s = true <-> exists post, s = p +:+ post.
Proof.
  revert s. induction p as [|a p IH]; intros s.
  - split; [intros _; by exists s | intros _; by destruct s].
  - destruct s as [|b s].
    + split; [done | intros [post Hpost]; discriminate].
    + change (String.prefix (String a p) (String b s))
        with (if Ascii.ascii_dec a b then String.prefix p s else false).
      destruct (Ascii.ascii_dec a b) as [->|Hab].
      * rewrite IH. split; intros [post Hpost]; exists post.
        -- by rewrite Hpost.
        -- change (String b p +:+ post) with (String b (p +:+ post)) in Hpost.
           congruence.
      * split; [done | intros [post Hpost]].
        change (String a p +:+ post) with (String a (p +:+ post)) in Hpost.
        congruence.
Qed.

Lemma contains_unfold (sub : string) (c : Ascii.ascii) (rest : string) :
  contains sub (String c rest) =
  String.prefix sub (String c rest) || contains sub rest.
Proof. reflexivity. Qed.

Lemma contains_spec (sub s : string) :
  contains sub s = true <-> substring_of sub s.
Proof.
  split.
  - induction s as [|c rest IH].
    + change (contains sub "") with (String.prefix sub "" || false).
      rewrite orb_false_r. intros [post Hpost]%prefix_spec.
      exists "", post. exact Hpost.
    + rewrite contains_unfold. intros [Hp|Hc]%orb_true_iff.
      * apply prefix_spec in Hp as [post Hpost]. exists "", post.
        exact Hpost.
      * destruct (IH Hc) as (pre & post & ->). by exists (String c pre), post.
  - intros (pre & post & ->). induction pre as [|c pre IH].
    + change ("" +:+ sub +:+ post) with (sub +:+ post).
      assert (String.prefix sub (sub +:+ post) = true) as Hp
        by (apply prefix_spec; eauto).
      destruct (sub +:+ post) as [|c rest].
      * change (contains sub "") with (String.prefix sub "" || false).
        by rewrite Hp.
      * by rewrite contains_unfold, Hp.
    + change (String c pre +:+ sub +:+ post)
        with (String c (pre +:+ sub +:+ post)).
      rewrite contains_unfold, IH. apply orb_true_r.
Qed.

Global Instance substring_of_dec (sub s : string) :
  Decision (substring_of sub s).
Proof.
  refine (cast_if (decide (contains sub s = true)));
    abstract (by rewrite <- contains_spec).
Defined.

Global Instance retained_dec `{Externals} (sym : Symbol) :
  Decision (retained sym).
Proof. unfold retained. apply _. Defined.

Lemma not_substring_of (sub s : string) :
  ~ substring_of sub s <-> contains sub s = false.
Proof. rewrite <- contains_spec. by destruct (contains sub s). Qed.

(** ** Dictionaries *)

Section dict_facts.
Context {K V : Type} `{EqDecision K}.
Implicit Types (d : Dict K V) (k : K) (v : V).

Lemma dict_get_setitem_eq d k v : dict_get (dict_setitem d k v) k = Some v.
Proof.
  induction d as [|[k' v'] d IH]; simpl.
  - by rewrite decide_True.
  - destruct (decide (k' = k)) as [->|Hne]; simpl.
    + by rewrite decide_True.
    + by rewrite decide_False.
Qed.

Lemma dict_get_setitem_ne d k k' v :
  k <> k' -> dict_get (dict_setitem d k v) k' = dict_get d k'.
Proof.
  intros Hne. induction d as [|[k0 v0] d IH]; simpl.
  - by rewrite decide_False.
  - destruct (decide (k0 = k)) as [->|Hk]; simpl.
    + by rewrite !decide_False.
    + by rewrite IH.
Qed.

Lemma dict_get_is_Some d k : is_Some (dict_get d k) <-> k ∈ dict_keys d.
Proof.
  unfold dict_keys. induction d as [|[k' v'] d IH]; simpl.
  - split; [by intros [? ?] | by intros ?%elem_of_nil].
  - rewrite elem_of_cons. destruct (decide (k' = k)) as [->|Hne].
    + split; [intros _; by left | intros _; by eexists].
    + rewrite IH. split; [by right | by intros [?|?]].
Qed.

Lemma dict_get_None d k : dict_get d k = None <-> k ∉ dict_keys d.
Proof. rewrite <- dict_get_is_Some, eq_None_not_Some. done. Qed.

Lemma dict_get_elem_of d k v : dict_get d k = Some v -> (k, v) ∈ d.
Proof.
  induction d as [|[k' v'] d IH]; simpl; [done|].
  destruct (decide (k' = k)) as [->|Hne].
  - intros [= ->]. apply elem_of_cons; by left.
  - intros Hget. apply elem_of_cons; right; auto.
Qed.

Lemma dict_elem_of_get d k v :
  dict_wf d -> (k, v) ∈ d -> dict_get d k = Some v.
Proof.
  unfold dict_wf, dict_keys. induction d as [|[k' v'] d IH]; simpl.
  - by intros _ ?%elem_of_nil.
  - intros [Hk' Hd]%NoDup_cons [Heq|Hin]%elem_of_cons.
    + simplify_eq. by rewrite decide_True.
    + rewrite decide_False; [auto|]. intros ->. apply Hk'.
      apply list_elem_of_fmap. by exists (k, v).
Qed.

Lemma dict_setitem_fresh d k v :
  k ∉ dict_keys d -> dict_setitem d k v = d ++ [(k, v)].
Proof.
  unfold dict_keys. induction d as [|[k' v'] d IH]; simpl; [done|].
  intros [Hne Hd]%not_elem_of_cons.
  rewrite decide_False by done. by rewrite IH.
Qed.

Lemma dict_keys_setitem d k v :
  dict_keys (dict_setitem d k v) =
  if decide (k ∈ dict_keys d) then dict_keys d else dict_keys d ++ [k].
Proof.
  unfold dict_keys. induction d as [|[k' v'] d IH].
  - destruct (decide (k ∈ ([] : Dict K V).*1)) as [Hin|_]; [|done].
    by apply elem_of_nil in Hin.
  - cbn [dict_setitem]. rewrite fmap_cons.
    destruct (decide (k' = k)) as [->|Hne].
    + destruct (decide (k ∈ (k, v').1 :: d.*1)) as [_|Hnin]; [done|].
      destruct Hnin. apply elem_of_cons; by left.
    + rewrite fmap_cons, IH.
      destruct (decide (k ∈ d.*1)) as [Hin|Hnin];
        destruct (decide (k ∈ (k', v').1 :: d.*1)) as [Hin'|Hnin']; try done.
      * destruct Hnin'. apply elem_of_cons; by right.
      * apply elem_of_cons in Hin' as [->|?]; done.
Qed.

Lemma dict_wf_setitem d k v : dict_wf d -> dict_wf (dict_setitem d k v).
Proof.
  unfold dict_wf. rewrite dict_keys_setitem. intros Hd.
  destruct (decide (k ∈ dict_keys d)); [done|].
  apply NoDup_app. split_and!; [done | | apply NoDup_singleton].
  intros k' Hin ->%list_elem_of_singleton. done.
Qed.

Lemma dict_keys_setitem_prefix d k v :
  dict_keys d `prefix_of` dict_keys (dict_setitem d k v).
Proof.
  rewrite dict_keys_setitem. destruct (decide (k ∈ dict_keys d)); [done|].
  by apply prefix_app_r.
Qed.

Lemma dict_comprehension_app (acc items : list (K * V)) :
  NoDup ((acc ++ items).*1) ->
  foldl (fun d kv => dict_setitem d kv.1 kv.2) acc items = acc ++ items.
Proof.
  revert acc. induction items as [|[k v] items IH]; intros acc Hnd; simpl.
  - by rewrite app_nil_r.
  - rewrite dict_setitem_fresh.
    + rewrite IH; rewrite <- app_assoc; done.
    + rewrite fmap_app in Hnd. apply NoDup_app in Hnd as (_ & Hdisj & _).
      intros Hin. apply (Hdisj k Hin). simpl. apply elem_of_cons; by left.
Qed.

Lemma dict_comprehension_wf (items : list (K * V)) :
  dict_wf items -> dict_comprehension items = items.
Proof. intros Hwf. by apply (dict_comprehension_app []). Qed.
End dict_facts.

(** ** The statements of the monad, one at a time *)

Ltac exec_unfold :=
  unfold getattr_embedding_map, kwargs_getitem, missing_argument,
    os_path_exists, open_w, file_write, file_read, dict_getitem;
  unfold bind, ret, raise, lift, tell, try_except.

Section construction.
Context `{Externals}.
Implicit Types (w : World) (self : SymbolEmbeddingMap) (kwargs : Kwargs).

(** The instance the constructor starts from. *)
Lemma init_neither provider kwargs w :
  __init__ provider false false kwargs w =
  (inr {| embedding_provider := default openai provider;
          embedding_map := None;
          index_to_symbol := None;
          symbol_to_index := None |}, w).
Proof. reflexivity. Qed.

Lemma init_load provider symbol_converter all_defined_symbols d w :
  __init__ provider false true
    {| kw_symbol_converter := symbol_converter;
       kw_all_defined_symbols := all_defined_symbols;
       kw_embedding_map := Some d |} w =
  (inr {| embedding_provider := default openai provider;
          embedding_map := Some d;
          index_to_symbol := None;
          symbol_to_index := None |}, w).
Proof. reflexivity. Qed.

(** C7: both flags set is refused as a conflict of construction modes; build
    mode without [symbol_converter] or without [all_defined_symbols], and load
    mode without [embedding_map], are refused with a message that names the
    argument that is missing.  In each case the world is left as it was. *)
Theorem init_configuration_errors provider w :
  (forall kwargs,
     __init__ provider true true kwargs w =
     (inl (ValueError
        "Cannot specify both build_new_embedding_map and load_embedding_map"),
      w))
  /\ (forall all_defined_symbols loaded,
     __init__ provider true false
       {| kw_symbol_converter := None;
          kw_all_defined_symbols := all_defined_symbols;
          kw_embedding_map := loaded |} w =
     (inl (ValueError "Missing required argument: 'symbol_converter'"), w))
  /\ (forall symbol_converter loaded,
     __init__ provider true false
       {| kw_symbol_converter := Some symbol_converter;
          kw_all_defined_symbols := None;
          kw_embedding_map := loaded |} w =
     (inl (ValueError "Missing required argument: 'all_defined_symbols'"), w))
  /\ (forall symbol_converter all_defined_symbols,
     __init__ provider false true
       {| kw_symbol_converter := symbol_converter;
          kw_all_defined_symbols := all_defined_symbols;
          kw_embedding_map := None |} w =
     (inl (ValueError "Missing required argument: 'embedding_map'"), w)).
Proof. repeat split. Qed.
End construction.

Section persistence.
Context `{Externals}.
Implicit Types (w : World) (self : SymbolEmbeddingMap).

(** C8: [save] on a path that holds a file raises and leaves the world, the
    file's contents included, as it was; [load] on a path that holds no file
    raises and leaves the world as it was, so no file is created. *)
Theorem persistence_preconditions self path w :
  (forall content,
     files w !! path = Some content ->
     save self path w =
     (inl (ValueError
        "output_embedding_path must be a path to a non-existing file."), w)
     /\ (files (save self path w).2) !! path = Some content)
  /\ (files w !! path = None ->
      load path w =
      (inl (ValueError
         "input_embedding_path must be a path to an existing file."), w)
      /\ files (load path w).2 = files w).
Proof.
  split.
  - intros content Hfile. assert (save self path w =
      (inl (ValueError
         "output_embedding_path must be a path to a non-existing file."), w))
      as Hsave.
    { unfold save. exec_unfold. rewrite Hfile.
      by rewrite bool_decide_eq_true_2. }
    by rewrite Hsave.
  - intros Hfile. assert (load path w =
      (inl (ValueError
         "input_embedding_path must be a path to an existing file."), w))
      as Hload.
    { unfold load. exec_unfold. rewrite Hfile.
      rewrite bool_decide_eq_false_2; [done|]. by intros [? ?]. }
    by rewrite Hload.
Qed.
End persistence.

(** ** Filtering *)

Section filtering.
Context `{Externals}.

Lemma retained_iff (sym : Symbol) :
  retained sym <->
  contains "__init__" (uri sym) = false /\
  contains "setup" (uri sym) = false /\
  contains "local" (uri sym) = false /\
  contains "test" (uri sym) = false /\
  symbol_kind_by_suffix sym ∉ excluded_kinds.
Proof.
  unfold retained, excluded_names.
  rewrite !Forall_cons, Forall_nil, !not_substring_of. tauto.
Qed.

Lemma excluded_kinds_spec (k : PythonKinds) :
  bool_decide (k = KLocal) || bool_decide (k = KValue)
  || bool_decide (k = KMeta) || bool_decide (k = KMacro)
  || bool_decide (k = KParameter) || bool_decide (k = KTypeParameter) = true
  <-> k ∈ excluded_kinds.
Proof.
  unfold excluded_kinds. rewrite !elem_of_cons, elem_of_nil.
  destruct k; simpl; intuition congruence.
Qed.

Lemma filter_step_retained (acc : list Symbol) (sym : Symbol) :
  filter_step acc sym = if decide (retained sym) then acc ++ [sym] else acc.
Proof.
  pose proof (retained_iff sym) as Hret.
  pose proof (excluded_kinds_spec (symbol_kind_by_suffix sym)) as Hkind.
  unfold filter_step. cbv zeta.
  destruct (decide (retained sym)) as [Hyes|Hno].
  - apply Hret in Hyes as (-> & -> & -> & -> & Hk).
    destruct (_ || _) eqn:Hb; [|done]. destruct Hk. by apply Hkind.
  - destruct (contains "__init__" (uri sym)); [done|].
    destruct (contains "setup" (uri sym)); [done|].
    destruct (contains "local" (uri sym)); [done|].
    destruct (contains "test" (uri sym)); [done|].
    destruct (_ || _) eqn:Hb; [done|]. destruct Hno. apply Hret.
    split_and!; try done. rewrite <- Hkind. congruence.
Qed.

Lemma filter_symbols_from (acc symbols : list Symbol) :
  foldl filter_step acc symbols = acc ++ filter retained symbols.
Proof.
  revert acc. induction symbols as [|sym symbols IH]; intros acc.
  - by rewrite app_nil_r.
  - cbn [foldl]. rewrite IH, filter_step_retained, filter_cons.
    destruct (decide (retained sym)); [by rewrite <- app_assoc | done].
Qed.

Lemma filter_symbols_filter (symbols : list Symbol) :
  _filter_symbols symbols = filter retained symbols.
Proof. apply (filter_symbols_from []). Qed.
End filtering.

(** ** Loops *)

Section loops.
Context `{PyFloat}.

Lemma for_each_cons {S A} (x : A) (xs : list A) (body : S -> A -> Exec S)
    (s : S) (w : World) :
  for_each (x :: xs) body s w =
  match body s x w with
  | (inr s', w') => for_each xs body s' w'
  | (inl e, w') => (inl e, w')
  end.
Proof. reflexivity. Qed.

Lemma for_each_one {S A} (x : A) (body : S -> A -> Exec S) (s : S)
    (w : World) :
  for_each [x] body s w = body s x w.
Proof.
  rewrite for_each_cons. by destruct (body s x w) as [[e|s'] w'].
Qed.

Lemma for_each_app {S A} (xs ys : list A) (body : S -> A -> Exec S) (s : S)
    (w : World) :
  for_each (xs ++ ys) body s w =
  match for_each xs body s w with
  | (inr s', w') => for_each ys body s' w'
  | (inl e, w') => (inl e, w')
  end.
Proof.
  revert s w. induction xs as [|x xs IH]; intros s w; [done|].
  rewrite <- app_comm_cons, !for_each_cons.
  destruct (body s x w) as [[e|s'] w']; [done | apply IH].
Qed.
End loops.

(** ** Updating *)

Section updating.
Context `{Externals}.
Implicit Types (w : World) (self : SymbolEmbeddingMap).
Implicit Types (d : Dict Symbol SymbolEmbedding) (conv : SymbolConverter).

Lemma add_events_nil w : add_events [] w = w.
Proof. destruct w. unfold add_events; simpl. by rewrite app_nil_r. Qed.

Lemma add_events_app new1 new2 w :
  add_events new2 (add_events new1 w) = add_events (new1 ++ new2) w.
Proof. unfold add_events; simpl. by rewrite app_assoc. Qed.

Lemma emit_add_events ev w : emit ev w = add_events [ev] w.
Proof. reflexivity. Qed.

Lemma set_embedding_map_id self d :
  embedding_map self = Some d -> set_embedding_map self d = self.
Proof. destruct self; simpl. by intros ->. Qed.

Lemma set_embedding_map_twice self d d' :
  set_embedding_map (set_embedding_map self d) d' = set_embedding_map self d'.
Proof. reflexivity. Qed.

Lemma update_embeddings_cons conv sym syms self w :
  update_embeddings conv (sym :: syms) self w =
  match update_embeddings conv [sym] self w with
  | (inr self', w') => update_embeddings conv syms self' w'
  | (inl e, w') => (inl e, w')
  end.
Proof.
  unfold update_embeddings. rewrite for_each_cons, for_each_one.
  reflexivity.
Qed.

(** One iteration on an assigned map. *)
Lemma update_embeddings_one conv sym self d w :
  embedding_map self = Some d ->
  exists d' new,
    update_embeddings conv [sym] self w =
      (inr (set_embedding_map self d'), add_events new w)
    /\ refreshed (embedding_provider self) conv d sym d' new.
Proof.
  intros Hmap. unfold update_embeddings. cbn [for_each]. exec_unfold.
  unfold get_embedding. exec_unfold. rewrite Hmap.
  destruct (convert_to_fst_object conv sym) as [e|text] eqn:Hconv.
  { exists d, [EvLogError sym e]. rewrite set_embedding_map_id by done.
    split; [done | by constructor]. }
  unfold dict_contains.
  destruct (dict_get d sym) as [stored|] eqn:Hget; cbn [negb].
  - destruct (decide (source_code stored = text)) as [Heq|Hne].
    + rewrite bool_decide_eq_false_2 by (by intros ?).
      exists d, []. rewrite set_embedding_map_id, add_events_nil by done.
      split; [done | by econstructor].
    + rewrite bool_decide_eq_true_2 by done.
      destruct (openai_get_embedding (embedding_provider self) text)
        as [e|v] eqn:Hemb.
      * exists d, [EvGetEmbedding sym text; EvLogError sym e].
        rewrite set_embedding_map_id by done.
        split; [by rewrite !emit_add_events, add_events_app|].
        eapply refreshed_refused; [done| |done]. congruence.
      * eexists _, [EvGetEmbedding sym text].
        split; [done|]. eapply refreshed_embedded; [done| |done]. congruence.
  - destruct (openai_get_embedding (embedding_provider self) text)
      as [e|v] eqn:Hemb.
    + exists d, [EvGetEmbedding sym text; EvLogError sym e].
      rewrite set_embedding_map_id by done.
      split; [by rewrite !emit_add_events, add_events_app|].
      eapply refreshed_refused; [done| |done]. congruence.
    + eexists _, [EvGetEmbedding sym text].
      split; [done|]. eapply refreshed_embedded; [done| |done]. congruence.
Qed.

(** The whole loop on an assigned map: it returns, and the map and the
    events are those of the iterations in turn. *)
Lemma update_embeddings_run conv syms self d w :
  embedding_map self = Some d ->
  exists d' new,
    update_embeddings conv syms self w =
      (inr (set_embedding_map self d'), add_events new w)
    /\ refreshed_all (embedding_provider self) conv d syms d' new.
Proof.
  revert self d w. induction syms as [|sym syms IH]; intros self d w Hmap.
  - exists d, []. rewrite set_embedding_map_id, add_events_nil by done.
    split; [done | constructor].
  - destruct (update_embeddings_one conv sym self d w Hmap)
      as (d1 & new1 & Hone & Hstep).
    destruct (IH (set_embedding_map self d1) d1 (add_events new1 w) eq_refl)
      as (d2 & new2 & Hrest & Hsteps).
    exists d2, (new1 ++ new2). rewrite update_embeddings_cons, Hone, Hrest.
    rewrite set_embedding_map_twice, add_events_app.
    split; [done | by econstructor].
Qed.

(** The whole loop while the map is unassigned: every iteration ends in the
    handler, and the instance stays as it is. *)
Lemma update_embeddings_unassigned conv syms self w :
  embedding_map self = None ->
  exists new,
    update_embeddings conv syms self w = (inr self, add_events new w)
    /\ Forall (fun ev => exists sym e, ev = EvLogError sym e) new.
Proof.
  intros Hmap. revert w. induction syms as [|sym syms IH]; intros w.
  - exists []. by rewrite add_events_nil.
  - assert (exists e, update_embeddings conv [sym] self w =
              (inr self, add_events [EvLogError sym e] w)) as [e Hone].
    { unfold update_embeddings. cbn [for_each]. exec_unfold. rewrite Hmap.
      destruct (convert_to_fst_object conv sym) as [e|text]; eauto. }
    destruct (IH (add_events [EvLogError sym e] w)) as (new & Hrest & Hlog).
    exists (EvLogError sym e :: new).
    rewrite update_embeddings_cons, Hone, Hrest, add_events_app.
    split; [done|]. constructor; eauto.
Qed.
(** *** What one iteration does to the map *)

(** The same loop with its exact events: one logged error per list item, in
    the order of the list. *)
Lemma update_embeddings_unassigned_trace conv syms self w :
  embedding_map self = None ->
  update_embeddings conv syms self w =
  (inr self, add_events (unassigned_log conv <$> syms) w).
Proof.
  intros Hmap. revert w. induction syms as [|sym syms IH]; intros w.
  - by rewrite fmap_nil, add_events_nil.
  - assert (update_embeddings conv [sym] self w =
              (inr self, add_events [unassigned_log conv sym] w)) as Hone.
    { unfold update_embeddings, unassigned_log. cbn [for_each]. exec_unfold.
      rewrite Hmap. by destruct (convert_to_fst_object conv sym). }
    rewrite update_embeddings_cons, Hone, IH, add_events_app.
    by rewrite fmap_cons.
Qed.

Lemma unassigned_log_no_request conv (syms : list Symbol) s text :
  EvGetEmbedding s text ∉ unassigned_log conv <$> syms.
Proof.
  intros (sym & Heq & _)%list_elem_of_fmap. discriminate.
Qed.

Section iterations.
Variables (provider : EmbeddingsProvider) (conv : SymbolConverter).

Lemma refreshed_frame d sym d' new s :
  refreshed provider conv d sym d' new ->
  s <> sym -> dict_get d' s = dict_get d s.
Proof.
  intros Hstep Hne. inversion Hstep; subst; try done.
  by apply dict_get_setitem_ne.
Qed.

Lemma refreshed_keys d sym d' new :
  refreshed provider conv d sym d' new ->
  dict_keys d `prefix_of` dict_keys d'.
Proof.
  intros Hstep. inversion Hstep; subst; try done.
  apply dict_keys_setitem_prefix.
Qed.

Lemma refreshed_wf d sym d' new :
  refreshed provider conv d sym d' new -> dict_wf d -> dict_wf d'.
Proof.
  intros Hstep Hwf. inversion Hstep; subst; try done.
  by apply dict_wf_setitem.
Qed.

Lemma refreshed_events d sym d' new s text :
  refreshed provider conv d sym d' new ->
  EvGetEmbedding s text ∈ new ->
  s = sym /\ convert_to_fst_object conv sym = inr text
  /\ forall stored, dict_get d sym = Some stored ->
                    source_code stored <> text.
Proof.
  intros Hstep Hin. inversion Hstep; subst.
  - apply list_elem_of_singleton in Hin. discriminate.
  - by apply elem_of_nil in Hin.
  - apply elem_of_cons in Hin as [Heq|Hin].
    + by simplify_eq.
    + apply list_elem_of_singleton in Hin. discriminate.
  - apply list_elem_of_singleton in Hin. by simplify_eq.
Qed.

Lemma refreshed_same_source d sym d' new stored :
  refreshed provider conv d sym d' new ->
  dict_get d sym = Some stored ->
  convert_to_fst_object conv sym = inr (source_code stored) ->
  d' = d /\ new = [].
Proof.
  intros Hstep Hget Hconv.
  inversion Hstep as [e0 Hc | text0 stored0 Hc Hg Hs | text0 e0 Hc Hst He
                     | text0 v0 Hc Hst He]; subst; try done.
  - congruence.
  - exfalso. eapply Hst; [done | congruence].
  - exfalso. eapply Hst; [done | congruence].
Qed.

Lemma refreshed_new_source d sym d' new text v :
  refreshed provider conv d sym d' new ->
  convert_to_fst_object conv sym = inr text ->
  openai_get_embedding provider text = inr v ->
  (forall stored, dict_get d sym = Some stored ->
                  source_code stored <> text) ->
  d' = dict_setitem d sym
         {| symbol := sym; vector := v; source_code := text |}
  /\ new = [EvGetEmbedding sym text].
Proof.
  intros Hstep Hconv Hemb Hstale.
  inversion Hstep as [e0 Hc | text0 stored0 Hc Hg Hs | text0 e0 Hc Hst He
                     | text0 v0 Hc Hst He]; subst.
  - congruence.
  - exfalso. eapply Hstale; [done | congruence].
  - congruence.
  - split; congruence.
Qed.

Lemma refreshed_not_embedded d sym d' new :
  refreshed provider conv d sym d' new ->
  embeds provider conv sym = false -> d' = d.
Proof.
  unfold embeds. intros Hstep Hfail.
  inversion Hstep as [e0 Hc | text0 stored0 Hc Hg Hs | text0 e0 Hc Hst He
                     | text0 v0 Hc Hst He]; subst; try done.
  by rewrite Hc, He in Hfail.
Qed.
End iterations.
End updating.

(** *** What the loop does to the map *)

Section batches.
Context `{Externals}.
Variables (provider : EmbeddingsProvider) (conv : SymbolConverter).
Implicit Types (d : Dict Symbol SymbolEmbedding) (s : Symbol).

Lemma refreshed_all_frame d syms d' new s :
  refreshed_all provider conv d syms d' new ->
  s ∉ syms -> dict_get d' s = dict_get d s.
Proof.
  induction 1 as [|d sym d1 new1 syms d2 new2 Hstep _ IH]; [done|].
  intros [Hne Hnin]%not_elem_of_cons.
  rewrite IH by done. by eapply refreshed_frame.
Qed.

Lemma refreshed_all_keys d syms d' new :
  refreshed_all provider conv d syms d' new ->
  dict_keys d `prefix_of` dict_keys d'.
Proof.
  induction 1 as [|d sym d1 new1 syms d2 new2 Hstep _ IH]; [done|].
  etrans; [by eapply refreshed_keys | done].
Qed.

Lemma refreshed_all_wf d syms d' new :
  refreshed_all provider conv d syms d' new -> dict_wf d -> dict_wf d'.
Proof.
  induction 1 as [|d sym d1 new1 syms d2 new2 Hstep _ IH]; [done|].
  intros Hwf. apply IH. by eapply refreshed_wf.
Qed.

(** An entry whose text is the one the converter gives stays, and no
    embedding is requested for its symbol. *)
Lemma refreshed_all_same_source d syms d' new s stored :
  refreshed_all provider conv d syms d' new ->
  dict_get d s = Some stored ->
  convert_to_fst_object conv s = inr (source_code stored) ->
  dict_get d' s = Some stored
  /\ forall text, EvGetEmbedding s text ∉ new.
Proof.
  induction 1 as [|d sym d1 new1 syms d2 new2 Hstep _ IH];
    intros Hget Hconv.
  - split; [done | intros text; apply not_elem_of_nil].
  - destruct (decide (s = sym)) as [->|Hne].
    + destruct (refreshed_same_source _ _ _ _ _ _ _ Hstep Hget Hconv)
        as [-> ->].
      destruct (IH Hget Hconv) as [Hget' Hnone]. done.
    + assert (dict_get d1 s = Some stored) as Hget1
        by (rewrite <- Hget; by eapply refreshed_frame).
      destruct (IH Hget1 Hconv) as [Hget' Hnone]. split; [done|].
      intros text [Hin|Hin]%elem_of_app; [|by eapply Hnone].
      by destruct (refreshed_events _ _ _ _ _ _ _ _ Hstep Hin) as [? _].
Qed.

(** A listed symbol that is new, or whose text has changed, gets a new entry
    when its text is resolved and embedded. *)
Lemma refreshed_all_new_source d syms d' new s text v :
  refreshed_all provider conv d syms d' new ->
  s ∈ syms ->
  convert_to_fst_object conv s = inr text ->
  openai_get_embedding provider text = inr v ->
  (forall stored, dict_get d s = Some stored ->
                  source_code stored <> text) ->
  dict_get d' s =
    Some {| symbol := s; vector := v; source_code := text |}
  /\ EvGetEmbedding s text ∈ new.
Proof.
  induction 1 as [|d sym d1 new1 syms d2 new2 Hstep Hrest IH];
    intros Hin Hconv Hemb Hstale.
  - by apply elem_of_nil in Hin.
  - destruct (decide (s = sym)) as [->|Hne].
    + destruct (refreshed_new_source _ _ _ _ _ _ _ _ Hstep Hconv Hemb Hstale)
        as [-> ->].
      split; [|apply elem_of_app; left; by apply list_elem_of_singleton].
      eapply refreshed_all_same_source; [done| |done].
      apply dict_get_setitem_eq.
    + apply elem_of_cons in Hin as [?|Hin]; [done|].
      destruct IH as [Hget' Hev]; try done.
      * intros stored Hget. apply Hstale. rewrite <- Hget. symmetry.
        by eapply refreshed_frame.
      * split; [done | apply elem_of_app; by right].
Qed.

(** A symbol that does not resolve, or whose text is refused, keeps what it
    had. *)
Lemma refreshed_all_not_embedded d syms d' new s :
  refreshed_all provider conv d syms d' new ->
  embeds provider conv s = false -> dict_get d' s = dict_get d s.
Proof.
  induction 1 as [|d sym d1 new1 syms d2 new2 Hstep _ IH]; [done|].
  intros Hfail. rewrite IH by done.
  destruct (decide (s = sym)) as [->|Hne].
  - by rewrite (refreshed_not_embedded _ _ _ _ _ _ Hstep Hfail).
  - by eapply refreshed_frame.
Qed.

(** A listed symbol that resolves and is embedded ends up with an entry for
    the text the converter gave. *)
Lemma refreshed_all_embedded d syms d' new s text v :
  refreshed_all provider conv d syms d' new ->
  s ∈ syms ->
  convert_to_fst_object conv s = inr text ->
  openai_get_embedding provider text = inr v ->
  exists e, dict_get d' s = Some e /\ source_code e = text.
Proof.
  intros Hall Hin Hconv Hemb.
  destruct (dict_get d s) as [stored|] eqn:Hget.
  - destruct (decide (source_code stored = text)) as [<-|Hne].
    + exists stored. split; [|done].
      by eapply refreshed_all_same_source.
    + eexists. split; [eapply refreshed_all_new_source; try done|done].
      intros stored' Hget'. congruence.
  - eexists. split; [eapply refreshed_all_new_source; try done|done].
    intros stored' Hget'. congruence.
Qed.
End batches.

(** ** Building *)

Section building.
Context `{Externals}.
Implicit Types (w : World) (self : SymbolEmbeddingMap).
Implicit Types (d : Dict Symbol SymbolEmbedding) (conv : SymbolConverter).

Lemma embeds_embedding_of provider conv sym :
  embeds provider conv sym = true <->
  is_Some (embedding_of provider conv sym).
Proof.
  unfold embeds, embedding_of.
  destruct (convert_to_fst_object conv sym) as [e|text].
  - split; [done | by intros [? ?]].
  - destruct (openai_get_embedding provider text).
    + split; [done | by intros [? ?]].
    + split; [by eexists | done].
Qed.

Lemma embedding_of_Some provider conv sym text v :
  convert_to_fst_object conv sym = inr text ->
  openai_get_embedding provider text = inr v ->
  embedding_of provider conv sym =
    Some {| symbol := sym; vector := v; source_code := text |}.
Proof. unfold embedding_of. by intros -> ->. Qed.

(** The loop of the build returns, whatever the collaborators raise, and
    touches no file. *)
Lemma build_loop_run self conv syms d w :
  exists w',
    for_each syms (fun embedding_map sym =>
      try_except
        (bind (lift (convert_to_fst_object conv sym)) (fun symbol_source =>
         bind (get_embedding (embedding_provider self) sym symbol_source)
           (fun symbol_embedding =>
         ret (dict_setitem embedding_map sym
                {| symbol := sym; vector := symbol_embedding;
                   source_code := symbol_source |}))))
        (fun e => bind (tell (EvLogError sym e))
                    (fun _ => ret embedding_map)))
      d w =
    (inr (foldl (built_with (embedding_provider self) conv) d syms), w')
    /\ files w' = files w.
Proof.
  revert d w. induction syms as [|sym syms IH]; intros d w.
  - by exists w.
  - rewrite for_each_cons. cbn [foldl]. unfold built_with at 2, embedding_of.
    match goal with
    | |- context [for_each syms ?body] => set (rest := for_each syms body) in *
    end.
    unfold get_embedding. exec_unfold.
    destruct (convert_to_fst_object conv sym) as [e|text].
    + destruct (IH d (emit (EvLogError sym e) w)) as (w' & -> & Hfiles).
      by exists w'.
    + destruct (openai_get_embedding (embedding_provider self) text)
        as [e|v].
      * destruct (IH d (emit (EvLogError sym e)
                          (emit (EvGetEmbedding sym text) w)))
          as (w' & -> & Hfiles).
        by exists w'.
      * destruct (IH (dict_setitem d sym
                        {| symbol := sym; vector := v;
                           source_code := text |})
                     (emit (EvGetEmbedding sym text) w))
          as (w' & -> & Hfiles).
        by exists w'.
Qed.

Lemma build_embedding_map_run self conv symbols w :
  exists w',
    _build_embedding_map self conv symbols w =
    (inr (foldl (built_with (embedding_provider self) conv) []
            (_filter_symbols symbols)), w')
    /\ files w' = files w.
Proof. apply build_loop_run. Qed.

Section built.
Variables (provider : EmbeddingsProvider) (conv : SymbolConverter).

Lemma built_with_get_ne d sym s :
  s <> sym -> dict_get (built_with provider conv d sym) s = dict_get d s.
Proof.
  intros Hne. unfold built_with.
  destruct (embedding_of provider conv sym); [|done].
  by apply dict_get_setitem_ne.
Qed.

Lemma built_keys d syms s :
  s ∈ dict_keys (foldl (built_with provider conv) d syms) <->
  s ∈ dict_keys d \/ (s ∈ syms /\ embeds provider conv s = true).
Proof.
  revert d. induction syms as [|sym syms IH]; intros d; cbn [foldl].
  - rewrite elem_of_nil. tauto.
  - rewrite IH, elem_of_cons. unfold built_with.
    destruct (embedding_of provider conv sym) as [e|] eqn:Hemb.
    + assert (embeds provider conv sym = true) as Hyes
        by (apply embeds_embedding_of; by eexists).
      rewrite dict_keys_setitem.
      destruct (decide (sym ∈ dict_keys d)) as [Hin|Hnin].
      * split; [tauto|]. intros [? | [[-> | ?] ?]]; tauto.
      * rewrite elem_of_app, list_elem_of_singleton.
        split; [intros [[? | ->] | ?]; tauto|].
        intros [? | [[-> | ?] ?]]; tauto.
    + assert (embeds provider conv sym <> true) as Hno.
      { rewrite embeds_embedding_of, Hemb. by intros [? ?]. }
      split; [tauto|]. intros [? | [[-> | ?] ?]]; tauto.
Qed.

Lemma built_stable d syms s e :
  dict_get d s = Some e -> embedding_of provider conv s = Some e ->
  dict_get (foldl (built_with provider conv) d syms) s = Some e.
Proof.
  revert d. induction syms as [|sym syms IH]; intros d Hget Hemb; [done|].
  cbn [foldl]. apply IH; [|done].
  destruct (decide (s = sym)) as [->|Hne].
  - unfold built_with. rewrite Hemb. apply dict_get_setitem_eq.
  - by rewrite built_with_get_ne.
Qed.

Lemma built_get d syms s e :
  s ∈ syms -> embedding_of provider conv s = Some e ->
  dict_get (foldl (built_with provider conv) d syms) s = Some e.
Proof.
  revert d. induction syms as [|sym syms IH]; intros d Hin Hemb.
  - by apply elem_of_nil in Hin.
  - cbn [foldl]. destruct (decide (s = sym)) as [->|Hne].
    + apply built_stable; [|done].
      unfold built_with. rewrite Hemb. apply dict_get_setitem_eq.
    + apply elem_of_cons in Hin as [?|Hin]; [done|]. by apply IH.
Qed.

Lemma built_order d syms :
  NoDup (dict_keys d ++ syms) ->
  dict_keys (foldl (built_with provider conv) d syms) =
  dict_keys d ++ filter (fun s => embeds provider conv s = true) syms.
Proof.
  revert d. induction syms as [|sym syms IH]; intros d Hnd; cbn [foldl].
  - by rewrite app_nil_r.
  - apply NoDup_app in Hnd as (Hd & Hdisj & [Hsym Hsyms]%NoDup_cons).
    assert (sym ∉ dict_keys d) as Hfresh.
    { intros Hin. apply (Hdisj _ Hin). apply elem_of_cons; by left. }
    rewrite filter_cons. unfold built_with at 2.
    destruct (embedding_of provider conv sym) as [e|] eqn:Hemb.
    + rewrite decide_True by (apply embeds_embedding_of; by eexists).
      rewrite IH.
      * rewrite dict_keys_setitem, decide_False by done.
        by rewrite <- app_assoc.
      * rewrite dict_keys_setitem, decide_False by done.
        rewrite <- app_assoc. apply NoDup_app. split_and!; [done| |].
        -- intros x Hx Hx'. apply (Hdisj x Hx). done.
        -- by apply NoDup_cons.
    + rewrite decide_False.
      * apply IH. apply NoDup_app. split_and!; [done| |done].
        intros x Hx Hx'. apply (Hdisj x Hx). apply elem_of_cons; by right.
      * rewrite embeds_embedding_of, Hemb. by intros [? ?].
Qed.
End built.
End building.

(** ** The contract of [update_embeddings] and of the build *)

Section contracts.
Context `{Externals}.
Implicit Types (w : World) (self : SymbolEmbeddingMap).
Implicit Types (d : Dict Symbol SymbolEmbedding) (conv : SymbolConverter).

(** C3: a listed symbol that is a key of the map, and whose stored source
    text is the text the converter resolves it to, causes no embedding
    request and keeps its entry, vector and source text alike. *)
Theorem update_embeddings_unchanged_source conv syms self w d s stored :
  embedding_map self = Some d ->
  s ∈ syms ->
  dict_get d s = Some stored ->
  convert_to_fst_object conv s = inr (source_code stored) ->
  exists d' new,
    update_embeddings conv syms self w =
      (inr (set_embedding_map self d'), add_events new w)
    /\ (forall text, EvGetEmbedding s text ∉ new)
    /\ dict_get d' s = Some stored.
Proof.
  intros Hmap _ Hget Hconv.
  destruct (update_embeddings_run conv syms self d w Hmap)
    as (d' & new & Hrun & Hall).
  exists d', new. split; [done|].
  destruct (refreshed_all_same_source _ _ _ _ _ _ _ _ Hall Hget Hconv).
  done.
Qed.

(** C4: a listed symbol that is not a key of the map, or whose stored source
    text differs from the text [text] it resolves to, ends up, when the
    embedding request for [text] answers [v], with the entry made of the
    symbol, [v] and [text]; the request was made for that symbol. *)
Theorem update_embeddings_new_or_changed conv syms self w d s text v :
  embedding_map self = Some d ->
  s ∈ syms ->
  (dict_get d s = None \/
   exists stored, dict_get d s = Some stored /\ source_code stored <> text) ->
  convert_to_fst_object conv s = inr text ->
  openai_get_embedding (embedding_provider self) text = inr v ->
  exists d' new,
    update_embeddings conv syms self w =
      (inr (set_embedding_map self d'), add_events new w)
    /\ dict_get d' s =
         Some {| symbol := s; vector := v; source_code := text |}
    /\ EvGetEmbedding s text ∈ new.
Proof.
  intros Hmap Hin Hstale Hconv Hemb.
  destruct (update_embeddings_run conv syms self d w Hmap)
    as (d' & new & Hrun & Hall).
  exists d', new. split; [done|].
  eapply refreshed_all_new_source; try done.
  intros stored Hget. destruct Hstale as [Hnone|(stored' & Hget' & Hne)];
    congruence.
Qed.

(** C10: [update_embeddings] leaves the entry of every symbol outside the
    list as it is, present or absent, and removes no key: the keys of the map
    before are the first keys of the map after, in the same order. *)
Theorem update_embeddings_frame conv syms self w d :
  embedding_map self = Some d ->
  exists d' new,
    update_embeddings conv syms self w =
      (inr (set_embedding_map self d'), add_events new w)
    /\ (forall s, s ∉ syms -> dict_get d' s = dict_get d s)
    /\ (forall s, s ∈ dict_keys d -> s ∈ dict_keys d')
    /\ dict_keys d `prefix_of` dict_keys d'.
Proof.
  intros Hmap.
  destruct (update_embeddings_run conv syms self d w Hmap)
    as (d' & new & Hrun & Hall).
  exists d', new. split_and!; [done| | |].
  - intros s Hs. by eapply refreshed_all_frame.
  - intros s Hs. eapply elem_of_prefix; [done|].
    by eapply refreshed_all_keys.
  - by eapply refreshed_all_keys.
Qed.

(** C9, as the code has it: with neither flag set the constructor returns an
    instance whose map is unassigned; [update_embeddings] on that instance
    raises nothing and leaves the instance as it is, map unassigned; every
    iteration ends in the handler, which logs exactly one error per list item,
    in order: the exception of the converter when the converter raises, and
    otherwise the [AttributeError] of the missing [embedding_map]; no
    embedding is requested.  Once the map is assigned, be it the empty one,
    [update_embeddings] does populate it. *)
Theorem neither_mode_unassigned provider kwargs conv syms w :
  exists self,
    __init__ provider false false kwargs w = (inr self, w)
    /\ embedding_map self = None
    /\ update_embeddings conv syms self w =
         (inr self, add_events (unassigned_log conv <$> syms) w)
    /\ (forall s text,
          EvGetEmbedding s text ∉ unassigned_log conv <$> syms)
    /\ (exists d' new,
          update_embeddings conv syms (set_embedding_map self []) w =
            (inr (set_embedding_map self d'), add_events new w)
          /\ forall s text v,
               s ∈ syms ->
               convert_to_fst_object conv s = inr text ->
               openai_get_embedding (embedding_provider self) text = inr v ->
               dict_get d' s =
                 Some {| symbol := s; vector := v; source_code := text |}).
Proof.
  eexists. split; [apply init_neither|]. split; [done|]. split_and!.
  - by apply update_embeddings_unassigned_trace.
  - apply unassigned_log_no_request.
  - match goal with |- context [set_embedding_map ?s []] =>
      destruct (update_embeddings_run conv syms (set_embedding_map s []) []
                  w eq_refl) as (d' & new & Hrun & Hall) end.
    exists d', new. split; [exact Hrun|].
    intros s text v Hin Hconv Hemb.
    eapply refreshed_all_new_source; done.
Qed.

(** C5: neither operation lets an exception of the converter or of the
    provider escape.  The build returns a map whose keys are the filtered
    symbols that resolve and are embedded, each with its entry, in the order
    of the candidates when these are distinct.  The update returns too, and
    on an assigned map a symbol that fails keeps what it had while a listed
    symbol that succeeds has an entry for its current text.  No file is
    touched. *)
Theorem partial_failure conv symbols self w :
  (exists built w',
     _build_embedding_map self conv symbols w = (inr built, w')
     /\ files w' = files w
     /\ (forall s, s ∈ dict_keys built <->
           s ∈ _filter_symbols symbols
           /\ embeds (embedding_provider self) conv s = true)
     /\ (forall s text v,
           s ∈ _filter_symbols symbols ->
           convert_to_fst_object conv s = inr text ->
           openai_get_embedding (embedding_provider self) text = inr v ->
           dict_get built s =
             Some {| symbol := s; vector := v; source_code := text |})
     /\ (NoDup (_filter_symbols symbols) ->
         dict_keys built =
         filter (fun s => embeds (embedding_provider self) conv s = true)
           (_filter_symbols symbols)))
  /\ (exists self' w',
        update_embeddings conv symbols self w = (inr self', w')
        /\ files w' = files w
        /\ forall d,
             embedding_map self = Some d ->
             exists d',
               self' = set_embedding_map self d'
               /\ (forall s,
                     embeds (embedding_provider self) conv s = false ->
                     dict_get d' s = dict_get d s)
               /\ (forall s text v,
                     s ∈ symbols ->
                     convert_to_fst_object conv s = inr text ->
                     openai_get_embedding (embedding_provider self) text
                       = inr v ->
                     exists e,
                       dict_get d' s = Some e /\ source_code e = text)).
Proof.
  split.
  - destruct (build_embedding_map_run self conv symbols w)
      as (w' & Hrun & Hfiles).
    eexists _, w'. split; [exact Hrun|]. split; [done|]. split_and!.
    + intros s. rewrite built_keys. unfold dict_keys at 1.
      rewrite elem_of_nil. tauto.
    + intros s text v Hin Hconv Hemb. apply built_get; [done|].
      by apply embedding_of_Some.
    + intros Hnd. by rewrite built_order.
  - destruct (embedding_map self) as [d|] eqn:Hmap.
    + destruct (update_embeddings_run conv symbols self d w Hmap)
        as (d' & new & Hrun & Hall).
      eexists _, _. split; [exact Hrun|]. split; [done|].
      intros d0 [= <-]. exists d'. split_and!; [done| |].
      * intros s Hfail. by eapply refreshed_all_not_embedded.
      * intros s text v Hin Hconv Hemb.
        by eapply refreshed_all_embedded.
    + destruct (update_embeddings_unassigned conv symbols self w Hmap)
        as (new & Hrun & _).
      eexists _, _. split; [exact Hrun|]. split; [done|]. by intros d.
Qed.

(** C6: [_filter_symbols] returns the symbols of its input that are
    retained, in their order: those whose URI contains none of [__init__],
    [setup], [local], [test] and whose kind is none of the six excluded
    ones.  A URI that contains [test] excludes the symbol whatever its kind,
    the kind [Parameter] excludes it whatever its URI.  The build keeps
    retained symbols only, while [update_embeddings] enters a symbol that
    resolves and is embedded, retained or not. *)
Theorem filter_symbols_retained (symbols : list Symbol) :
  _filter_symbols symbols = filter retained symbols
  /\ (forall sym, substring_of "test" (uri sym) ->
                  sym ∉ _filter_symbols symbols)
  /\ (forall sym, symbol_kind_by_suffix sym = KParameter ->
                  sym ∉ _filter_symbols symbols)
  /\ (forall self conv w built w',
        _build_embedding_map self conv symbols w = (inr built, w') ->
        forall sym, sym ∈ dict_keys built -> retained sym)
  /\ (forall self conv w d sym text v,
        embedding_map self = Some d ->
        sym ∈ symbols ->
        dict_get d sym = None ->
        convert_to_fst_object conv sym = inr text ->
        openai_get_embedding (embedding_provider self) text = inr v ->
        exists d' w',
          update_embeddings conv symbols self w =
            (inr (set_embedding_map self d'), w')
          /\ sym ∈ dict_keys d').
Proof.
  split_and!.
  - apply filter_symbols_filter.
  - intros sym Htest. rewrite filter_symbols_filter, list_elem_of_filter.
    intros [Hret _]. apply retained_iff in Hret as (_ & _ & _ & Hno & _).
    apply not_substring_of in Hno. done.
  - intros sym Hkind. rewrite filter_symbols_filter, list_elem_of_filter.
    intros [[_ Hret] _]. apply Hret. rewrite Hkind. unfold excluded_kinds.
    rewrite !elem_of_cons. tauto.
  - intros self conv w built w' Hrun sym Hin.
    destruct (build_embedding_map_run self conv symbols w)
      as (w1 & Hrun1 & _).
    rewrite Hrun in Hrun1. injection Hrun1 as -> _.
    apply built_keys in Hin as [Hin|[Hin _]].
    + by apply elem_of_nil in Hin.
    + rewrite filter_symbols_filter in Hin.
      by apply list_elem_of_filter in Hin as [? _].
  - intros self conv w d sym text v Hmap Hin Hnone Hconv Hemb.
    destruct (update_embeddings_run conv symbols self d w Hmap)
      as (d' & new & Hrun & Hall).
    exists d', (add_events new w). split; [done|].
    apply dict_get_is_Some.
    destruct (refreshed_all_new_source _ _ _ _ _ _ _ _ _ Hall Hin Hconv Hemb)
      as [-> _]; [|done].
    intros stored Hget. congruence.
Qed.
End contracts.

(** ** Saving and loading *)

Section round_trip.
Context `{Externals}.
Implicit Types (w : World) (self : SymbolEmbeddingMap).
Implicit Types (d : Dict Symbol SymbolEmbedding).

Lemma save_fresh self d path w :
  embedding_map self = Some d ->
  files w !! path = None ->
  save self path w =
  (inr tt, write_file path (jsonpickle_encode d) (write_file path "" w)).
Proof.
  intros Hmap Hfresh. unfold save. exec_unfold. rewrite Hfresh, Hmap.
  rewrite bool_decide_eq_false_2 by (by intros [? ?]).
  cbn [files write_file]. by rewrite lookup_insert_eq.
Qed.

Lemma list_comprehension_cons {A B} (f : A -> Exec B) (x : A) (xs : list A)
    w :
  list_comprehension f (x :: xs) w =
  match f x w with
  | (inr y, w') =>
      match list_comprehension f xs w' with
      | (inr ys, w'') => (inr (y :: ys), w'')
      | (inl e, w'') => (inl e, w'')
      end
  | (inl e, w') => (inl e, w')
  end.
Proof. reflexivity. Qed.

(** Reading the keys back, one [Symbol.from_string] per item. *)
Lemma keys_from_string d w :
  (forall s, s ∈ dict_keys d -> Symbol_from_string (symbol_key s) = inr s) ->
  list_comprehension
    (fun kv => bind (lift (Symbol_from_string kv.1))
                 (fun key => ret (key, kv.2)))
    (prod_map symbol_key id <$> d) w = (inr d, w).
Proof.
  unfold dict_keys. set (f := fun kv : string * SymbolEmbedding => _).
  induction d as [|[s e] d IH]; intros Hkeys; [done|].
  rewrite fmap_cons, list_comprehension_cons.
  assert (f (prod_map symbol_key id (s, e)) w = (inr (s, e), w)) as ->.
  { subst f. unfold bind, lift, ret. cbn [prod_map fst snd].
    by rewrite Hkeys by (rewrite fmap_cons; apply elem_of_cons; by left). }
  rewrite IH; [done|].
  intros s' Hs'. apply Hkeys. rewrite fmap_cons. apply elem_of_cons. by right.
Qed.

(** Loading a file that holds the serialization of a map. *)
Lemma load_stored path w text d :
  files w !! path = Some text ->
  jsonpickle_decode text = inr (prod_map symbol_key id <$> d) ->
  (forall s, s ∈ dict_keys d -> Symbol_from_string (symbol_key s) = inr s) ->
  dict_wf d ->
  load path w =
  (inr {| embedding_provider := openai;
          embedding_map := Some d;
          index_to_symbol := None;
          symbol_to_index := None |}, w).
Proof.
  intros Hfile Hdecode Hkeys Hwf. unfold load.
  unfold bind at 1. unfold os_path_exists.
  rewrite bool_decide_eq_true_2 by (rewrite Hfile; by eexists). cbn [negb].
  unfold bind at 1. unfold file_read. rewrite Hfile.
  unfold bind at 1. unfold lift at 1. rewrite Hdecode.
  unfold bind at 1. rewrite (keys_from_string d w Hkeys).
  rewrite dict_comprehension_wf by done. exact (init_load None None None d w).
Qed.

Lemma triples_Permutation d d' :
  d' ≡ₚ d -> forall t, t ∈ triples d' <-> t ∈ triples d.
Proof. intros Hperm t. unfold triples. by rewrite Hperm. Qed.

(** C1: saving an assigned map to a path that holds no file and loading that
    path again gives an instance whose map has the same (symbol, vector,
    source text) triples; the order of the entries is the one the
    serialization gives back.  The serialization is taken to return, for the
    map saved, its items under the string keys in some order, and
    [Symbol.from_string] to read the key of each symbol of the map back as
    that symbol. *)
Theorem save_load_round_trip self d path w decoded :
  embedding_map self = Some d ->
  dict_wf d ->
  files w !! path = None ->
  (forall s, s ∈ dict_keys d -> Symbol_from_string (symbol_key s) = inr s) ->
  jsonpickle_decode (jsonpickle_encode d) = inr decoded ->
  decoded ≡ₚ prod_map symbol_key id <$> d ->
  exists w1 loaded w2 d',
    save self path w = (inr tt, w1)
    /\ load path w1 = (inr loaded, w2)
    /\ embedding_map loaded = Some d'
    /\ dict_wf d'
    /\ d' ≡ₚ d
    /\ forall t, t ∈ triples d' <-> t ∈ triples d.
Proof.
  intros Hmap Hwf Hfresh Hkeys Hdecode Hperm.
  apply Permutation_map_inv in Hperm as (d' & -> & Hperm).
  assert (dict_wf d') as Hwf'.
  { unfold dict_wf, dict_keys in *. by rewrite <- Hperm. }
  assert (forall s, s ∈ dict_keys d' ->
                    Symbol_from_string (symbol_key s) = inr s) as Hkeys'.
  { intros s Hs. apply Hkeys. unfold dict_keys in *. by rewrite Hperm. }
  eexists _, _, _, d'. split; [by apply save_fresh|].
  split_and!; [| |done|by symmetry|by apply triples_Permutation].
  - eapply load_stored; [|exact Hdecode|done..].
    cbn [files write_file]. apply lookup_insert_eq.
  - reflexivity.
Qed.
End round_trip.

(** ** The similarity matrix *)

Section loop_invariant.
Context `{PyFloat}.

(** The rule of the loop invariant: [inv done s] holds of the variables [s]
    once the items [done] have been gone through, and each iteration adds
    the events [ev x]. *)
Lemma for_each_invariant {S A} (inv : list A -> S -> Prop)
    (ev : A -> list Event) (body : S -> A -> Exec S) (xs : list A) :
  (forall done x s w,
     x ∈ xs -> inv done s ->
     exists s', body s x w = (inr s', add_events (ev x) w)
                /\ inv (done ++ [x]) s') ->
  forall done s w,
    inv done s ->
    exists s', for_each xs body s w = (inr s', add_events (xs ≫= ev) w)
               /\ inv (done ++ xs) s'.
Proof.
  induction xs as [|x xs IH]; intros Hbody done s w Hinv.
  - exists s. rewrite app_nil_r. split; [|done].
    destruct w. unfold add_events. simpl. by rewrite app_nil_r.
  - destruct (Hbody done x s w) as (s1 & Hrun1 & Hinv1);
      [apply elem_of_cons; by left | done |].
    destruct (IH (fun done x s w Hx => Hbody done x s w
                    (proj2 (elem_of_cons xs x _) (or_intror Hx)))
                 (done ++ [x]) s1 (add_events (ev x) w) Hinv1)
      as (s2 & Hrun2 & Hinv2).
    exists s2. rewrite for_each_cons, Hrun1, Hrun2, bind_cons.
    rewrite <- app_assoc in Hinv2. split; [|done].
    unfold add_events. simpl. by rewrite app_assoc.
Qed.
End loop_invariant.

Section matrix.
Context `{Externals}.
Implicit Types (w : World) (m : list (list float)) (row : list float).

Lemma list_getitem_ok {A} (l : list A) (i : nat) (a : A) w :
  l !! i = Some a -> list_getitem l i w = (inr a, w).
Proof. unfold list_getitem. by intros ->. Qed.

Lemma list_setitem_ok {A} (l : list A) (i : nat) (a : A) w :
  i < length l -> list_setitem l i a w = (inr (<[i := a]> l), w).
Proof. intros Hi. unfold list_setitem. by rewrite decide_True. Qed.

Lemma entry_of_Some m a b x :
  entry_of m a b = Some x <->
  exists row, m !! a = Some row /\ row !! b = Some x.
Proof.
  unfold entry_of. destruct (m !! a) as [row|]; simpl.
  - split; [by exists row | by intros (? & [= <-] & ?)].
  - split; [done | by intros (? & ? & ?)].
Qed.

Lemma matrix_getitem_ok m a b x w :
  entry_of m a b = Some x -> matrix_getitem m a b w = (inr x, w).
Proof.
  intros (row & Hrow & Hx)%entry_of_Some. unfold matrix_getitem, bind.
  by rewrite (list_getitem_ok _ _ _ _ Hrow), (list_getitem_ok _ _ _ _ Hx).
Qed.

Lemma matrix_setitem_ok m a b x row w :
  m !! a = Some row -> b < length row ->
  matrix_setitem m a b x w = (inr (<[a := <[b := x]> row]> m), w).
Proof.
  intros Hrow Hb. unfold matrix_setitem, bind.
  rewrite (list_getitem_ok _ _ _ _ Hrow), list_setitem_ok by done.
  apply list_setitem_ok. by eapply lookup_lt_Some.
Qed.

Lemma square_lookup n m a :
  square n m -> a < n -> exists row, m !! a = Some row /\ length row = n.
Proof.
  intros [Hlen Hrows] Ha.
  destruct (lookup_lt_is_Some_2 m a) as [row Hrow]; [lia|].
  exists row. split; [done|]. by eapply Forall_lookup_1 in Hrows.
Qed.

Lemma square_insert n m a b x row :
  square n m -> m !! a = Some row ->
  square n (<[a := <[b := x]> row]> m).
Proof.
  intros [Hlen Hrows] Hrow. split; [by rewrite length_insert|].
  apply Forall_insert; [done|]. rewrite length_insert.
  by eapply Forall_lookup_1 in Hrows.
Qed.

Lemma entry_of_insert n m a b x row a' b' :
  square n m -> m !! a = Some row -> a < n -> b < n ->
  entry_of (<[a := <[b := x]> row]> m) a' b' =
  if decide (a' = a /\ b' = b) then Some x else entry_of m a' b'.
Proof.
  intros Hsq Hrow Ha Hb. unfold entry_of.
  destruct (square_lookup n m a Hsq Ha) as (row' & Hrow' & Hlen).
  assert (row' = row) as -> by congruence.
  destruct (decide (a' = a)) as [->|Hne].
  - rewrite list_lookup_insert_eq by (destruct Hsq; lia). simpl.
    rewrite Hrow. simpl. destruct (decide (b' = b)) as [->|Hne].
    + rewrite decide_True by done. apply list_lookup_insert_eq. lia.
    + rewrite decide_False by tauto. by apply list_lookup_insert_ne.
  - rewrite list_lookup_insert_ne by done.
    rewrite decide_False by tauto. done.
Qed.

Lemma entry_of_replicate n a b :
  a < n -> b < n ->
  entry_of (replicate n (replicate n float_zero)) a b = Some float_zero.
Proof.
  intros Ha Hb. unfold entry_of. rewrite lookup_replicate_2 by done. simpl.
  by apply lookup_replicate_2.
Qed.

Lemma square_replicate n : square n (replicate n (replicate n float_zero)).
Proof.
  split; [apply length_replicate|].
  apply Forall_replicate, length_replicate.
Qed.
End matrix.

Section similarity.
Context `{Externals}.
Variables (provider : EmbeddingsProvider) (embeddings : list (list float)).
Implicit Types (w : World) (m : list (list float)).
Implicit Types (done : list (nat * nat)).

Lemma cosine_events_app pairs1 pairs2 :
  cosine_events embeddings (pairs1 ++ pairs2) =
  cosine_events embeddings pairs1 ++ cosine_events embeddings pairs2.
Proof. unfold cosine_events. by rewrite filter_app, fmap_app. Qed.

Lemma cosine_events_row i js :
  js ≫= (fun j => cosine_events embeddings [(i, j)]) =
  cosine_events embeddings ((fun j => (i, j)) <$> js).
Proof.
  induction js as [|j js IH]; [done|].
  rewrite bind_cons, fmap_cons, IH.
  by rewrite <- cosine_events_app.
Qed.

Lemma cosine_events_rows n rows :
  rows ≫= (fun i =>
    cosine_events embeddings ((fun j => (i, j)) <$> seq 0 n)) =
  cosine_events embeddings (i ← rows; (fun j => (i, j)) <$> seq 0 n).
Proof.
  induction rows as [|i rows IH]; [done|].
  by rewrite !bind_cons, IH, cosine_events_app.
Qed.

Lemma computed_skip done i j a b :
  ~ i < j ->
  computed provider embeddings (done ++ [(i, j)]) a b =
  computed provider embeddings done a b.
Proof.
  intros Hij. unfold computed.
  rewrite (decide_ext (a < b /\ (a, b) ∈ done ++ [(i, j)])
             (a < b /\ (a, b) ∈ done)).
  - rewrite (decide_ext (b < a /\ (b, a) ∈ done ++ [(i, j)])
               (b < a /\ (b, a) ∈ done)); [done|].
    rewrite elem_of_app, list_elem_of_singleton.
    split; [intros [? [?|[= -> ->]]]; [done|lia] | intros [? ?]; auto].
  - rewrite elem_of_app, list_elem_of_singleton.
    split; [intros [? [?|[= -> ->]]]; [done|lia] | intros [? ?]; auto].
Qed.

Lemma computed_cell done i j a b :
  i < j ->
  computed provider embeddings (done ++ [(i, j)]) a b =
  if decide ((a = i /\ b = j) \/ (a = j /\ b = i))
  then cosine_similarity provider (embeddings !!! i) (embeddings !!! j)
  else computed provider embeddings done a b.
Proof.
  intros Hij. unfold computed.
  destruct (decide ((a = i /\ b = j) \/ (a = j /\ b = i)))
    as [[[-> ->]|[-> ->]]|Hother].
  - rewrite decide_True; [done|]. split; [done|].
    apply elem_of_app; right. by apply list_elem_of_singleton.
  - rewrite decide_False by lia. rewrite decide_True; [done|].
    split; [done|]. apply elem_of_app; right. by apply list_elem_of_singleton.
  - rewrite (decide_ext (a < b /\ (a, b) ∈ done ++ [(i, j)])
               (a < b /\ (a, b) ∈ done)).
    + rewrite (decide_ext (b < a /\ (b, a) ∈ done ++ [(i, j)])
                 (b < a /\ (b, a) ∈ done)); [done|].
      rewrite elem_of_app, list_elem_of_singleton.
      split; [intros [? [?|[= -> ->]]]; [done|tauto] | intros [? ?]; auto].
    + rewrite elem_of_app, list_elem_of_singleton.
      split; [intros [? [?|[= -> ->]]]; [done|tauto] | intros [? ?]; auto].
Qed.

Lemma similarity_cell_run i j done m w :
  i < length embeddings -> j < length embeddings ->
  matrix_inv provider embeddings done m ->
  exists m',
    similarity_cell provider embeddings i m j w =
      (inr m', add_events (cosine_events embeddings [(i, j)]) w)
    /\ matrix_inv provider embeddings (done ++ [(i, j)]) m'.
Proof.
  intros Hi Hj [Hsq Hentries]. unfold similarity_cell, cosine_events.
  rewrite filter_cons, filter_nil. cbn [fst snd].
  destruct (decide (j <= i)) as [Hle|Hlt].
  - rewrite decide_False by lia. exists m. split.
    + unfold ret. destruct w. unfold add_events. simpl.
      by rewrite app_nil_r.
    + split; [done|]. intros a b Ha Hb.
      rewrite computed_skip by lia. auto.
  - rewrite decide_True by lia.
    set (sim := cosine_similarity provider (embeddings !!! i)
                  (embeddings !!! j)).
    destruct (square_lookup _ m i Hsq Hi) as (row_i & Hrow_i & Hlen_i).
    set (m1 := <[i := <[j := sim]> row_i]> m).
    assert (square (length embeddings) m1) as Hsq1
      by (by apply square_insert).
    assert (entry_of m1 i j = Some sim) as Hij1.
    { unfold m1. rewrite (entry_of_insert (length embeddings)) by done.
      by rewrite decide_True. }
    destruct (square_lookup _ m1 j Hsq1 Hj) as (row_j & Hrow_j & Hlen_j).
    exists (<[j := <[i := sim]> row_j]> m1). split.
    + unfold bind.
      rewrite (list_getitem_ok embeddings i (embeddings !!! i))
        by (by apply list_lookup_lookup_total_lt).
      rewrite (list_getitem_ok embeddings j (embeddings !!! j))
        by (by apply list_lookup_lookup_total_lt).
      unfold call_cosine_similarity, bind, tell, ret.
      rewrite (matrix_setitem_ok m i j _ row_i) by (done || lia).
      fold sim. fold m1.
      rewrite (matrix_getitem_ok m1 i j sim) by done.
      rewrite (matrix_setitem_ok m1 j i _ row_j) by (done || lia).
      done.
    + split; [by apply square_insert|]. intros a b Ha Hb.
      rewrite (entry_of_insert (length embeddings)) by done.
      rewrite computed_cell by lia.
      destruct (decide (a = j /\ b = i)) as [[-> ->]|Hne1].
      * rewrite decide_True by tauto. done.
      * unfold m1. rewrite (entry_of_insert (length embeddings)) by done.
        destruct (decide (a = i /\ b = j)) as [[-> ->]|Hne2].
        -- rewrite decide_True by tauto. done.
        -- rewrite decide_False by tauto. auto.
Qed.

Lemma similarity_row_run i done m w :
  i < length embeddings ->
  matrix_inv provider embeddings done m ->
  exists m',
    for_each (seq 0 (length embeddings))
      (similarity_cell provider embeddings i) m w =
      (inr m',
       add_events
         (cosine_events embeddings
            ((fun j => (i, j)) <$> seq 0 (length embeddings))) w)
    /\ matrix_inv provider embeddings
         (done ++ ((fun j => (i, j)) <$> seq 0 (length embeddings)))
         m'.
Proof.
  intros Hi Hinv. rewrite <- cosine_events_row.
  assert (forall js j m0 w0,
    j ∈ seq 0 (length embeddings) ->
    matrix_inv provider embeddings (done ++ ((fun j => (i, j)) <$> js)) m0 ->
    exists m1,
      similarity_cell provider embeddings i m0 j w0 =
        (inr m1, add_events (cosine_events embeddings [(i, j)]) w0)
      /\ matrix_inv provider embeddings
           (done ++ ((fun j => (i, j)) <$> (js ++ [j]))) m1)
    as Hbody.
  { intros js j m0 w0 Hj Hinv0. apply elem_of_seq in Hj.
    rewrite fmap_app, app_assoc. apply similarity_cell_run; [done|lia|done]. }
  destruct (for_each_invariant
    (fun js m => matrix_inv provider embeddings
                   (done ++ ((fun j => (i, j)) <$> js)) m)
    (fun j => cosine_events embeddings [(i, j)])
    (similarity_cell provider embeddings i) (seq 0 (length embeddings)) Hbody
    (@nil nat) m w) as (m' & Hrun & Hinv').
  - by rewrite fmap_nil, app_nil_r.
  - exists m'. by split.
Qed.

Lemma similarity_matrix_run w :
  exists m,
    calculate_similarity_matrix provider embeddings w =
      (inr m,
       add_events
         (cosine_events embeddings (index_pairs (length embeddings))) w)
    /\ matrix_inv provider embeddings (index_pairs (length embeddings)) m.
Proof.
  unfold index_pairs. rewrite <- cosine_events_rows.
  assert (forall rows i m0 w0,
    i ∈ seq 0 (length embeddings) ->
    matrix_inv provider embeddings
      (i ← rows; (fun j => (i, j)) <$> seq 0 (length embeddings))
      m0 ->
    exists m1,
      for_each (seq 0 (length embeddings))
        (similarity_cell provider embeddings i) m0 w0 =
        (inr m1,
         add_events
           (cosine_events embeddings
              ((fun j => (i, j)) <$> seq 0 (length embeddings))) w0)
      /\ matrix_inv provider embeddings
           (i ← rows ++ [i]; (fun j => (i, j)) <$> seq 0 (length embeddings))
           m1) as Hbody.
  { intros rows i m0 w0 Hi Hinv0. apply elem_of_seq in Hi.
    rewrite bind_app, bind_cons.
    change (@nil nat ≫= _) with (@nil (nat * nat)). rewrite app_nil_r.
    apply similarity_row_run; [lia|done]. }
  destruct (for_each_invariant
    (fun rows m =>
       matrix_inv provider embeddings
         (i ← rows; (fun j => (i, j)) <$> seq 0 (length embeddings))
         m)
    (fun i => cosine_events embeddings
                ((fun j => (i, j)) <$> seq 0 (length embeddings)))
    (fun results i =>
       for_each (seq 0 (length embeddings))
         (similarity_cell provider embeddings i) results)
    (seq 0 (length embeddings)) Hbody (@nil nat)
    (replicate (length embeddings)
       (replicate (length embeddings) float_zero)) w)
    as (m' & Hrun & Hinv').
  - split; [apply square_replicate|]. intros a b Ha Hb.
    rewrite entry_of_replicate by done. unfold computed.
    rewrite !decide_False; [done| |]; intros [_ Hin];
      by apply elem_of_nil in Hin.
  - exists m'. split; [exact Hrun | exact Hinv'].
Qed.
End similarity.

Section matrix_contract.
Context `{Externals}.
Implicit Types (w : World) (self : SymbolEmbeddingMap).
Implicit Types (d : Dict Symbol SymbolEmbedding).

Lemma elem_of_index_pairs n a b : (a, b) ∈ index_pairs n <-> a < n /\ b < n.
Proof.
  unfold index_pairs. rewrite list_elem_of_bind. split.
  - intros (i & Hin & Hi).
    apply list_elem_of_fmap in Hin as (j & [= -> ->] & Hj).
    apply elem_of_seq in Hi, Hj. lia.
  - intros [Ha Hb]. exists a. split.
    + apply list_elem_of_fmap. exists b. split; [done|].
      apply elem_of_seq. lia.
    + apply elem_of_seq. lia.
Qed.

Lemma computed_all provider embeddings n a b :
  a < n -> b < n ->
  computed provider embeddings (index_pairs n) a b =
  if decide (a < b)
  then cosine_similarity provider (embeddings !!! a) (embeddings !!! b)
  else if decide (b < a)
  then cosine_similarity provider (embeddings !!! b) (embeddings !!! a)
  else float_zero.
Proof.
  intros Ha Hb. unfold computed.
  rewrite (decide_ext (a < b /\ (a, b) ∈ index_pairs n) (a < b))
    by (rewrite elem_of_index_pairs; tauto).
  by rewrite (decide_ext (b < a /\ (b, a) ∈ index_pairs n) (b < a))
    by (rewrite elem_of_index_pairs; tauto).
Qed.

Lemma enumerate_keys {A} (l : list A) : (enumerate l).*1 = seq 0 (length l).
Proof. unfold enumerate. apply fst_zip. by rewrite length_seq. Qed.

Lemma enumerate_values {A} (l : list A) : (enumerate l).*2 = l.
Proof. unfold enumerate. apply snd_zip. by rewrite length_seq. Qed.

(** C2: on a map of [n] entries [generate_similarity_matrix] returns an
    [n]-by-[n] matrix with [0.0] on the diagonal, equal entries at [i][j]
    and [j][i], and above the diagonal the similarity of the [i]-th and the
    [j]-th stored vector in the order of the map.  The similarity is
    requested for the pairs above the diagonal only, row by row, and the
    entries below are copies.  The map itself is left as it is and
    [index_to_symbol] numbers its keys in their order. *)
Theorem generate_similarity_matrix_spec self d w :
  embedding_map self = Some d ->
  exists self' m,
    generate_similarity_matrix self w =
      (inr (self', m),
       add_events
         (cosine_events (vector <$> dict_values d) (index_pairs (length d)))
         w)
    /\ embedding_map self' = Some d
    /\ index_to_symbol self' = Some (enumerate (dict_keys d))
    /\ square (length d) m
    /\ (forall i, i < length d -> entry_of m i i = Some float_zero)
    /\ (forall i j, i < length d -> j < length d ->
          entry_of m i j = entry_of m j i)
    /\ (forall i j ei ej,
          i < j ->
          dict_values d !! i = Some ei ->
          dict_values d !! j = Some ej ->
          entry_of m i j =
            Some (cosine_similarity (embedding_provider self)
                    (vector ei) (vector ej))).
Proof.
  intros Hmap.
  assert (length (vector <$> dict_values d) = length d) as Hlen
    by (unfold dict_values; by rewrite !length_fmap).
  destruct (similarity_matrix_run (embedding_provider self)
              (vector <$> dict_values d) w) as (m & Hrun & Hsq & Hentries).
  rewrite Hlen in Hrun, Hsq, Hentries.
  eexists _, m. split.
  { unfold generate_similarity_matrix. exec_unfold. rewrite Hmap.
    cbn [embedding_provider set_symbol_to_index set_index_to_symbol].
    rewrite Hrun. reflexivity. }
  cbn [embedding_map index_to_symbol set_symbol_to_index set_index_to_symbol].
  split_and!; [done| |done| | |].
  - rewrite dict_comprehension_wf; [done|].
    unfold dict_wf, dict_keys at 1. rewrite enumerate_keys. apply NoDup_seq.
  - intros i Hi. rewrite Hentries, computed_all by done.
    by rewrite !decide_False by lia.
  - intros i j Hi Hj. rewrite !Hentries, !computed_all by done.
    destruct (decide (i < j)), (decide (j < i)); try done; lia.
  - intros i j ei ej Hij Hei Hej.
    assert (j < length d) as Hj.
    { apply lookup_lt_Some in Hej. unfold dict_values in Hej.
      by rewrite length_fmap in Hej. }
    rewrite Hentries, computed_all by lia. rewrite decide_True by done.
    rewrite (list_lookup_total_correct (vector <$> dict_values d) i
               (vector ei)) by (by rewrite list_lookup_fmap, Hei).
    by rewrite (list_lookup_total_correct (vector <$> dict_values d) j
                  (vector ej)) by (by rewrite list_lookup_fmap, Hej).
Qed.
End matrix_contract.

(** * Further properties of the update and of the build *)

Section second_run.
Context `{Externals}.
Variables (provider : EmbeddingsProvider) (conv : SymbolConverter).
Implicit Types (d : Dict Symbol SymbolEmbedding) (s : Symbol).

Lemma dict_setitem_same {K V} `{EqDecision K} (d0 : Dict K V) k v :
  dict_get d0 k = Some v -> dict_setitem d0 k v = d0.
Proof.
  induction d0 as [|[k' v'] d0 IH]; simpl; [done|].
  destruct (decide (k' = k)) as [->|Hne].
  - by intros [= ->].
  - intros Hget. by rewrite IH.
Qed.

Lemma refreshed_settled d sym d' new :
  refreshed provider conv d sym d' new ->
  settled provider conv d sym ->
  d' = d /\
  forall s text, EvGetEmbedding s text ∈ new ->
                 embeds provider conv s = false.
Proof.
  intros Hstep Hsettled.
  inversion Hstep as [e0 Hc | text0 stored0 Hc Hg Hs | text0 e0 Hc Hst He
                     | text0 v0 Hc Hst He]; subst.
  - split; [done|]. intros s text Hin.
    apply list_elem_of_singleton in Hin. discriminate.
  - split; [done|]. intros s text Hin. by apply elem_of_nil in Hin.
  - split; [done|]. intros s text [Heq|Hin]%elem_of_cons.
    + injection Heq as -> ->. unfold embeds. by rewrite Hc, He.
    + apply list_elem_of_singleton in Hin. discriminate.
  - destruct (Hsettled _ _ Hc He) as (e & Hget & Hsrc).
    by destruct (Hst e Hget).
Qed.

Lemma refreshed_all_settled d syms d' new :
  refreshed_all provider conv d syms d' new ->
  Forall (settled provider conv d) syms ->
  d' = d /\
  forall s text, EvGetEmbedding s text ∈ new ->
                 embeds provider conv s = false.
Proof.
  induction 1 as [|d sym d1 new1 syms d2 new2 Hstep _ IH].
  - intros _. split; [done|]. intros s text Hin. by apply elem_of_nil in Hin.
  - intros [Hsym Hsyms]%Forall_cons.
    destruct (refreshed_settled _ _ _ _ Hstep Hsym) as [-> Hnew1].
    destruct (IH Hsyms) as [-> Hnew2]. split; [done|].
    intros s text [Hin|Hin]%elem_of_app; eauto.
Qed.

Lemma refreshed_all_gives_settled d syms d' new :
  refreshed_all provider conv d syms d' new ->
  Forall (settled provider conv d') syms.
Proof.
  intros Hall. apply Forall_forall. intros s Hin text v Hconv Hemb.
  by eapply refreshed_all_embedded.
Qed.

(** *** The entries the loop leaves behind *)

Lemma refreshed_consistent d sym d' new :
  refreshed provider conv d sym d' new ->
  consistent provider d -> consistent provider d'.
Proof.
  intros Hstep Hd.
  inversion Hstep as [e0 Hc | text0 stored0 Hc Hg Hs | text0 e0 Hc Hst He
                     | text0 v0 Hc Hst He]; subst; try done.
  intros s e. destruct (decide (s = sym)) as [->|Hne].
  - rewrite dict_get_setitem_eq. by intros [= <-].
  - rewrite dict_get_setitem_ne by done. apply Hd.
Qed.

Lemma refreshed_all_consistent d syms d' new :
  refreshed_all provider conv d syms d' new ->
  consistent provider d -> consistent provider d'.
Proof.
  induction 1 as [|d sym d1 new1 syms d2 new2 Hstep _ IH]; [done|].
  intros Hd. apply IH. by eapply refreshed_consistent.
Qed.

(** *** The events the loop emits *)

Lemma refreshed_log d sym d' new s e :
  refreshed provider conv d sym d' new ->
  EvLogError s e ∈ new ->
  s = sym /\ embeds provider conv sym = false.
Proof.
  unfold embeds. intros Hstep Hin.
  inversion Hstep as [e0 Hc | text0 stored0 Hc Hg Hs | text0 e0 Hc Hst He
                     | text0 v0 Hc Hst He]; subst.
  - apply list_elem_of_singleton in Hin. injection Hin as -> ->.
    by rewrite Hc.
  - by apply elem_of_nil in Hin.
  - apply elem_of_cons in Hin as [Heq|Hin]; [discriminate|].
    apply list_elem_of_singleton in Hin. injection Hin as -> ->.
    by rewrite Hc, He.
  - apply list_elem_of_singleton in Hin. discriminate.
Qed.

Lemma refreshed_no_cosine d sym d' new a b :
  refreshed provider conv d sym d' new -> EvCosineSimilarity a b ∉ new.
Proof.
  intros Hstep Hin.
  inversion Hstep as [e0 Hc | text0 stored0 Hc Hg Hs | text0 e0 Hc Hst He
                     | text0 v0 Hc Hst He]; subst;
    repeat (apply elem_of_cons in Hin as [Hin|Hin]; [discriminate|]);
    by apply elem_of_nil in Hin.
Qed.

Lemma refreshed_one_request d sym d' new :
  refreshed provider conv d sym d' new ->
  length (List.filter is_request new) <= 1.
Proof.
  intros Hstep.
  inversion Hstep as [e0 Hc | text0 stored0 Hc Hg Hs | text0 e0 Hc Hst He
                     | text0 v0 Hc Hst He]; subst; simpl; lia.
Qed.

Lemma refreshed_all_accounting d syms d' new :
  refreshed_all provider conv d syms d' new ->
  (forall s text, EvGetEmbedding s text ∈ new ->
     s ∈ syms /\ convert_to_fst_object conv s = inr text)
  /\ (forall s e, EvLogError s e ∈ new ->
        s ∈ syms /\ embeds provider conv s = false)
  /\ (forall a b, EvCosineSimilarity a b ∉ new)
  /\ length (List.filter is_request new) <= length syms.
Proof.
  induction 1 as [|d sym d1 new1 syms d2 new2 Hstep _ IH].
  - split_and!; try (intros ? ? Hin; by apply elem_of_nil in Hin).
    simpl. lia.
  - destruct IH as (Hreq & Hlog & Hcos & Hlen). split_and!.
    + intros s text [Hin|Hin]%elem_of_app.
      * destruct (refreshed_events _ _ _ _ _ _ _ _ Hstep Hin)
          as (-> & Hconv & _).
        split; [apply elem_of_cons; by left | done].
      * destruct (Hreq _ _ Hin). split; [apply elem_of_cons; by right|done].
    + intros s e [Hin|Hin]%elem_of_app.
      * destruct (refreshed_log _ _ _ _ _ _ Hstep Hin) as [-> Hfail].
        split; [apply elem_of_cons; by left | done].
      * destruct (Hlog _ _ Hin). split; [apply elem_of_cons; by right|done].
    + intros a b [Hin|Hin]%elem_of_app.
      * by eapply refreshed_no_cosine.
      * by eapply Hcos.
    + rewrite List.filter_app, length_app.
      pose proof (refreshed_one_request _ _ _ _ Hstep). simpl. lia.
Qed.

(** *** The update from the empty map and the build *)

Lemma refreshed_built d sym d' new :
  refreshed provider conv d sym d' new ->
  up_to_date provider conv d ->
  d' = built_with provider conv d sym.
Proof.
  intros Hstep Hd. unfold built_with, embedding_of.
  inversion Hstep as [e0 Hc | text0 stored0 Hc Hg Hs | text0 e0 Hc Hst He
                     | text0 v0 Hc Hst He]; subst.
  - by rewrite Hc.
  - pose proof (Hd _ _ Hg) as Hemb. unfold embedding_of in Hemb.
    destruct (convert_to_fst_object conv sym) as [|text]; [done|].
    destruct (openai_get_embedding provider text) as [|v]; [done|].
    injection Hemb as <-. symmetry. by apply dict_setitem_same.
  - by rewrite Hc, He.
  - by rewrite Hc, He.
Qed.

Lemma built_with_up_to_date d sym :
  up_to_date provider conv d ->
  up_to_date provider conv (built_with provider conv d sym).
Proof.
  intros Hd. unfold built_with.
  destruct (embedding_of provider conv sym) as [e|] eqn:Hemb; [|done].
  intros s e'. destruct (decide (s = sym)) as [->|Hne].
  - rewrite dict_get_setitem_eq. by intros [= <-].
  - rewrite dict_get_setitem_ne by done. apply Hd.
Qed.

Lemma built_up_to_date d syms :
  up_to_date provider conv d ->
  up_to_date provider conv (foldl (built_with provider conv) d syms).
Proof.
  revert d. induction syms as [|sym syms IH]; intros d Hd; [done|].
  cbn [foldl]. by apply IH, built_with_up_to_date.
Qed.

Lemma built_wf d syms :
  dict_wf d -> dict_wf (foldl (built_with provider conv) d syms).
Proof.
  revert d. induction syms as [|sym syms IH]; intros d Hd; [done|].
  cbn [foldl]. apply IH. unfold built_with.
  destruct (embedding_of provider conv sym); [|done].
  by apply dict_wf_setitem.
Qed.

Lemma refreshed_all_built d syms d' new :
  refreshed_all provider conv d syms d' new ->
  up_to_date provider conv d ->
  d' = foldl (built_with provider conv) d syms.
Proof.
  induction 1 as [|d sym d1 new1 syms d2 new2 Hstep _ IH]; [done|].
  intros Hd. cbn [foldl].
  rewrite <- (refreshed_built _ _ _ _ Hstep Hd). apply IH.
  rewrite (refreshed_built _ _ _ _ Hstep Hd).
  by apply built_with_up_to_date.
Qed.

Lemma embedding_of_inv sym e :
  embedding_of provider conv sym = Some e ->
  symbol e = sym
  /\ convert_to_fst_object conv sym = inr (source_code e)
  /\ openai_get_embedding provider (source_code e) = inr (vector e).
Proof.
  unfold embedding_of.
  destruct (convert_to_fst_object conv sym) as [|text]; [done|].
  destruct (openai_get_embedding provider text) as [|v] eqn:Hemb; [done|].
  by intros [= <-].
Qed.
End second_run.

Section further_contracts.
Context `{Externals}.
Implicit Types (w : World) (self : SymbolEmbeddingMap).
Implicit Types (d : Dict Symbol SymbolEmbedding) (conv : SymbolConverter).

(** The loop of the build with its events. *)
Lemma build_loop_trace self conv syms d w :
  for_each syms (fun embedding_map sym =>
    try_except
      (bind (lift (convert_to_fst_object conv sym)) (fun symbol_source =>
       bind (get_embedding (embedding_provider self) sym symbol_source)
         (fun symbol_embedding =>
       ret (dict_setitem embedding_map sym
              {| symbol := sym; vector := symbol_embedding;
                 source_code := symbol_source |}))))
      (fun e => bind (tell (EvLogError sym e))
                  (fun _ => ret embedding_map)))
    d w =
  (inr (foldl (built_with (embedding_provider self) conv) d syms),
   add_events (syms ≫= build_events (embedding_provider self) conv) w).
Proof.
  revert d w. induction syms as [|sym syms IH]; intros d w.
  - change (@nil Symbol ≫= _) with (@nil Event). by rewrite add_events_nil.
  - rewrite for_each_cons, bind_cons, <- add_events_app. cbn [foldl].
    match goal with
    | |- context [for_each syms ?body] => set (rest := for_each syms body) in *
    end.
    set (later := syms ≫= build_events (embedding_provider self) conv) in *.
    unfold built_with at 2, embedding_of, build_events.
    unfold get_embedding. exec_unfold.
    destruct (convert_to_fst_object conv sym) as [e|text];
      [by rewrite IH|].
    destruct (openai_get_embedding (embedding_provider self) text) as [e|v].
    + rewrite IH, !emit_add_events.
      by rewrite (add_events_app [EvGetEmbedding sym text]
                    [EvLogError sym e]).
    + by rewrite IH.
Qed.

(** The build requests an embedding for every filtered candidate that
    resolves, once per occurrence and in their order, whether or not an
    earlier occurrence was embedded already; it logs one error per occurrence
    that fails, and nothing else happens. *)
Theorem build_embedding_map_trace self conv symbols w :
  exists built new,
    _build_embedding_map self conv symbols w = (inr built, add_events new w)
    /\ new = _filter_symbols symbols
             ≫= build_events (embedding_provider self) conv
    /\ List.filter is_request new =
       omap (fun sym =>
               match convert_to_fst_object conv sym with
               | inr text => Some (EvGetEmbedding sym text)
               | inl _ => None
               end) (_filter_symbols symbols).
Proof.
  eexists _, _. split; [apply build_loop_trace|]. split; [done|].
  induction (_filter_symbols symbols) as [|sym syms IH]; [done|].
  rewrite bind_cons, List.filter_app, IH. cbn [omap list_omap].
  unfold build_events.
  destruct (convert_to_fst_object conv sym) as [e|text]; [done|].
  by destruct (openai_get_embedding (embedding_provider self) text).
Qed.

(** The map the build returns has each key once, and every entry sits under
    its own symbol, holds the text the converter resolves that symbol to and
    the vector the provider answers for that text. *)
Theorem build_embedding_map_entries self conv symbols w :
  exists built w',
    _build_embedding_map self conv symbols w = (inr built, w')
    /\ dict_wf built
    /\ forall s e,
         dict_get built s = Some e ->
         symbol e = s
         /\ convert_to_fst_object conv s = inr (source_code e)
         /\ openai_get_embedding (embedding_provider self) (source_code e)
            = inr (vector e).
Proof.
  destruct (build_embedding_map_run self conv symbols w)
    as (w' & Hrun & _).
  eexists _, w'. split; [exact Hrun|]. split.
  - apply built_wf. apply NoDup_nil_2.
  - intros s e Hget. apply embedding_of_inv.
    by apply (built_up_to_date (embedding_provider self) conv []
                (_filter_symbols symbols)).
Qed.

(** Updating the empty map with the filtered candidates gives the map the
    build gives. *)
Theorem build_agrees_with_update self conv symbols w :
  exists built w' new,
    _build_embedding_map self conv symbols w = (inr built, w')
    /\ update_embeddings conv (_filter_symbols symbols)
         (set_embedding_map self []) w =
       (inr (set_embedding_map self built), add_events new w).
Proof.
  destruct (build_embedding_map_run self conv symbols w)
    as (w' & Hrun & _).
  destruct (update_embeddings_run conv (_filter_symbols symbols)
              (set_embedding_map self []) [] w eq_refl)
    as (d' & new & Hupd & Hall).
  eexists _, w', new. split; [exact Hrun|]. rewrite Hupd.
  rewrite (refreshed_all_built _ _ _ _ _ _ Hall); done.
Qed.

(** A second update with the same converter and the same list changes
    nothing in the instance, and requests an embedding only for symbols whose
    text the provider refuses. *)
Theorem update_embeddings_second_run conv syms self w d :
  embedding_map self = Some d ->
  exists self1 w1 new2,
    update_embeddings conv syms self w = (inr self1, w1)
    /\ update_embeddings conv syms self1 w1 = (inr self1, add_events new2 w1)
    /\ forall s text,
         EvGetEmbedding s text ∈ new2 ->
         embeds (embedding_provider self) conv s = false.
Proof.
  intros Hmap.
  destruct (update_embeddings_run conv syms self d w Hmap)
    as (d1 & new1 & Hrun1 & Hall1).
  destruct (update_embeddings_run conv syms (set_embedding_map self d1) d1
              (add_events new1 w) eq_refl)
    as (d2 & new2 & Hrun2 & Hall2).
  destruct (refreshed_all_settled _ _ _ _ _ _ Hall2
              (refreshed_all_gives_settled _ _ _ _ _ _ Hall1))
    as [-> Hnew2].
  eexists _, _, new2. split; [exact Hrun1|]. split; [exact Hrun2|].
  exact Hnew2.
Qed.

(** The update keeps the map well formed and consistent: if every entry sits
    under its own symbol with the vector the provider answers for its source
    text, this is still so afterwards. *)
Theorem update_embeddings_consistent conv syms self w d :
  embedding_map self = Some d ->
  dict_wf d ->
  consistent (embedding_provider self) d ->
  exists d' new,
    update_embeddings conv syms self w =
      (inr (set_embedding_map self d'), add_events new w)
    /\ dict_wf d'
    /\ consistent (embedding_provider self) d'.
Proof.
  intros Hmap Hwf Hcons.
  destruct (update_embeddings_run conv syms self d w Hmap)
    as (d' & new & Hrun & Hall).
  exists d', new. split; [done|]. split.
  - by eapply refreshed_all_wf.
  - by eapply refreshed_all_consistent.
Qed.

(** The update requests embeddings only for listed symbols, each with the
    text the converter resolves it to and at most one per list item; it logs
    errors only for listed symbols that fail; it requests no similarity and
    touches no file. *)
Theorem update_embeddings_accounting conv syms self w d :
  embedding_map self = Some d ->
  exists d' new,
    update_embeddings conv syms self w =
      (inr (set_embedding_map self d'), add_events new w)
    /\ (forall s text, EvGetEmbedding s text ∈ new ->
          s ∈ syms /\ convert_to_fst_object conv s = inr text)
    /\ (forall s e, EvLogError s e ∈ new ->
          s ∈ syms /\ embeds (embedding_provider self) conv s = false)
    /\ (forall a b, EvCosineSimilarity a b ∉ new)
    /\ length (List.filter is_request new) <= length syms.
Proof.
  intros Hmap.
  destruct (update_embeddings_run conv syms self d w Hmap)
    as (d' & new & Hrun & Hall).
  exists d', new. split; [done|]. by eapply refreshed_all_accounting.
Qed.

(** In build mode with both arguments the constructor does not raise,
    whatever the converter and the provider do: it returns an instance with
    the provider it was given (or the default one), the map the build
    returns and no index tables.  An [embedding_map] argument is ignored. *)
Theorem init_build_mode provider conv symbols ignored w :
  exists built w',
    __init__ provider true false
      {| kw_symbol_converter := Some conv;
         kw_all_defined_symbols := Some symbols;
         kw_embedding_map := ignored |} w =
    (inr {| embedding_provider := default openai provider;
            embedding_map := Some built;
            index_to_symbol := None;
            symbol_to_index := None |}, w')
    /\ _build_embedding_map
         {| embedding_provider := default openai provider;
            embedding_map := None;
            index_to_symbol := None;
            symbol_to_index := None |} conv symbols w = (inr built, w')
    /\ files w' = files w
    /\ forall s, s ∈ dict_keys built -> retained s.
Proof.
  set (blank := {| embedding_provider := default openai provider;
                   embedding_map := None;
                   index_to_symbol := None;
                   symbol_to_index := None |}).
  destruct (build_embedding_map_run blank conv symbols w)
    as (w' & Hrun & Hfiles).
  eexists _, w'. split_and!; [|exact Hrun|exact Hfiles|].
  - unfold __init__. cbn [andb]. fold blank. exec_unfold.
    cbn [kw_symbol_converter kw_all_defined_symbols]. by rewrite Hrun.
  - intros s Hin. apply built_keys in Hin as [Hin|[Hin _]].
    + by apply elem_of_nil in Hin.
    + rewrite filter_symbols_filter in Hin.
      by apply list_elem_of_filter in Hin as [? _].
Qed.
End further_contracts.

(** * Further properties of saving and loading *)

Section comprehension_facts.
Context {K V : Type} `{EqDecision K}.
Implicit Types (d : Dict K V) (items : list (K * V)) (k : K) (v : V).

Lemma dict_fold_wf d items :
  dict_wf d -> dict_wf (foldl (fun d kv => dict_setitem d kv.1 kv.2) d items).
Proof.
  revert d. induction items as [|[k v] items IH]; intros d Hd; [done|].
  cbn [foldl]. by apply IH, dict_wf_setitem.
Qed.

Lemma dict_comprehension_wf_always items : dict_wf (dict_comprehension items).
Proof. apply dict_fold_wf, NoDup_nil_2. Qed.

Lemma dict_get_app d1 d2 k :
  dict_get (d1 ++ d2) k =
  match dict_get d1 k with Some v => Some v | None => dict_get d2 k end.
Proof.
  induction d1 as [|[k' v'] d1 IH]; simpl; [done|].
  by destruct (decide (k' = k)).
Qed.

Lemma dict_fold_get d items k :
  dict_get (foldl (fun d kv => dict_setitem d kv.1 kv.2) d items) k =
  match dict_get (reverse items) k with
  | Some v => Some v
  | None => dict_get d k
  end.
Proof.
  revert d. induction items as [|[k' v'] items IH]; intros d; [done|].
  cbn [foldl]. rewrite IH, reverse_cons, dict_get_app. cbn [fst snd].
  destruct (dict_get (reverse items) k) as [v|]; [done|]. simpl.
  destruct (decide (k' = k)) as [->|Hne].
  - apply dict_get_setitem_eq.
  - by apply dict_get_setitem_ne.
Qed.

(** Of two items with the same key the later one is kept. *)
Lemma dict_comprehension_get items k :
  dict_get (dict_comprehension items) k = dict_get (reverse items) k.
Proof.
  unfold dict_comprehension. rewrite dict_fold_get.
  by destruct (dict_get (reverse items) k).
Qed.
End comprehension_facts.

Section further_persistence.
Context `{Externals}.
Implicit Types (w : World) (self : SymbolEmbeddingMap).
Implicit Types (d : Dict Symbol SymbolEmbedding).

Lemma read_keys_cons k v items w :
  read_keys ((k, v) :: items) w =
  match Symbol_from_string k with
  | inl e => (inl e, w)
  | inr s =>
      match read_keys items w with
      | (inr parsed, w') => (inr ((s, v) :: parsed), w')
      | (inl e, w') => (inl e, w')
      end
  end.
Proof.
  unfold read_keys. rewrite list_comprehension_cons.
  unfold bind at 1, lift, ret. cbn [fst snd].
  by destruct (Symbol_from_string k).
Qed.

Lemma read_keys_world items w : (read_keys items w).2 = w.
Proof.
  induction items as [|[k v] items IH]; [done|].
  rewrite read_keys_cons. destruct (Symbol_from_string k); [done|].
  destruct (read_keys items w) as [[e|parsed] w']; simpl in *; done.
Qed.

Lemma read_keys_ok items w parsed w' :
  read_keys items w = (inr parsed, w') ->
  Forall2 (fun kv p => Symbol_from_string kv.1 = inr p.1 /\ kv.2 = p.2)
    items parsed.
Proof.
  revert parsed. induction items as [|[k v] items IH]; intros parsed.
  - intros [= <- _]. constructor.
  - rewrite read_keys_cons.
    destruct (Symbol_from_string k) as [e|s] eqn:Hk; [done|].
    destruct (read_keys items w) as [[e|rest] w1]; [done|].
    intros [= <- <-]. constructor; [done | by apply IH].
Qed.

Lemma read_keys_error pre k v post e w :
  Forall (fun kv => exists s, Symbol_from_string kv.1 = inr s) pre ->
  Symbol_from_string k = inl e ->
  read_keys (pre ++ (k, v) :: post) w = (inl e, w).
Proof.
  intros Hpre Hk. induction Hpre as [|[k0 v0] pre [s Hs] _ IH].
  - rewrite app_nil_l, read_keys_cons. by rewrite Hk.
  - rewrite <- app_comm_cons, read_keys_cons. cbn [fst] in Hs.
    by rewrite Hs, IH.
Qed.

(** [load] once the file is there. *)
Lemma load_existing path w text :
  files w !! path = Some text ->
  load path w =
  match jsonpickle_decode text with
  | inl e => (inl e, w)
  | inr items =>
      match read_keys items w with
      | (inl e, w') => (inl e, w')
      | (inr parsed, w') =>
          (inr {| embedding_provider := openai;
                  embedding_map := Some (dict_comprehension parsed);
                  index_to_symbol := None;
                  symbol_to_index := None |}, w')
      end
  end.
Proof.
  intros Hfile. unfold load.
  unfold bind at 1. unfold os_path_exists.
  rewrite bool_decide_eq_true_2 by (rewrite Hfile; by eexists). cbn [negb].
  unfold bind at 1. unfold file_read. rewrite Hfile.
  unfold bind at 1. unfold lift at 1.
  destruct (jsonpickle_decode text) as [e|items]; [done|].
  unfold bind at 1. fold (read_keys items).
  by destruct (read_keys items w) as [[e|parsed] w'].
Qed.

(** [load] only reads: whatever it returns or raises, the files and the
    events are as before. *)
Theorem load_world_unchanged path w : (load path w).2 = w.
Proof.
  destruct (files w !! path) as [text|] eqn:Hfile.
  - rewrite (load_existing _ _ _ Hfile).
    destruct (jsonpickle_decode text) as [e|items]; [done|].
    pose proof (read_keys_world items w) as Hw.
    by destruct (read_keys items w) as [[e|parsed] w'].
  - unfold load. exec_unfold. rewrite Hfile.
    rewrite bool_decide_eq_false_2; [done|]. by intros [? ?].
Qed.

(** An instance that [load] returns has the default provider, whichever
    provider the saving instance had, no index tables, and a well-formed map
    made of the decoded items with their keys read back by
    [Symbol.from_string]; where two keys read back as the same symbol, the
    later item is the one kept. *)
Theorem load_result path w loaded w' :
  load path w = (inr loaded, w') ->
  embedding_provider loaded = openai
  /\ index_to_symbol loaded = None
  /\ symbol_to_index loaded = None
  /\ exists text items parsed d,
       files w !! path = Some text
       /\ jsonpickle_decode text = inr items
       /\ Forall2 (fun kv p => Symbol_from_string kv.1 = inr p.1
                               /\ kv.2 = p.2) items parsed
       /\ embedding_map loaded = Some d
       /\ dict_wf d
       /\ forall s, dict_get d s = dict_get (reverse parsed) s.
Proof.
  intros Hload. destruct (files w !! path) as [text|] eqn:Hfile.
  - rewrite (load_existing _ _ _ Hfile) in Hload.
    destruct (jsonpickle_decode text) as [e|items] eqn:Hdecode; [done|].
    destruct (read_keys items w) as [[e|parsed] w1] eqn:Hkeys; [done|].
    injection Hload as <- <-. split_and!; [done..|].
    exists text, items, parsed, (dict_comprehension parsed).
    split_and!; [done|done| |done| |].
    + by eapply read_keys_ok.
    + apply dict_comprehension_wf_always.
    + intros s. apply dict_comprehension_get.
  - unfold load in Hload. revert Hload. exec_unfold. rewrite Hfile.
    rewrite bool_decide_eq_false_2; [done|]. by intros [? ?].
Qed.

(** A file that does not decode, or that holds a key [Symbol.from_string]
    rejects, makes [load] raise the error of the decoder, or of the first
    rejected key; the world stays as it was. *)
Theorem load_errors path w text :
  files w !! path = Some text ->
  (forall e, jsonpickle_decode text = inl e -> load path w = (inl e, w))
  /\ (forall pre k v post e,
        jsonpickle_decode text = inr (pre ++ (k, v) :: post) ->
        Forall (fun kv => exists s, Symbol_from_string kv.1 = inr s) pre ->
        Symbol_from_string k = inl e ->
        load path w = (inl e, w)).
Proof.
  intros Hfile. rewrite (load_existing _ _ _ Hfile). split.
  - by intros e ->.
  - intros pre k v post e -> Hpre Hk.
    by rewrite (read_keys_error pre k v post e w Hpre Hk).
Qed.

(** [save] on an instance whose map is unassigned raises [AttributeError],
    but only after the file has been opened for writing: an empty file is
    left at the path, and saving to that path again is refused. *)
Theorem save_unassigned self path w :
  embedding_map self = None ->
  files w !! path = None ->
  save self path w =
    (inl (AttributeError "embedding_map"), write_file path "" w)
  /\ files (write_file path "" w) !! path = Some ""
  /\ forall other,
       save other path (write_file path "" w) =
       (inl (ValueError
          "output_embedding_path must be a path to a non-existing file."),
        write_file path "" w).
Proof.
  intros Hmap Hfresh. split_and!.
  - unfold save. exec_unfold. rewrite Hfresh, Hmap.
    by rewrite bool_decide_eq_false_2 by (by intros [? ?]).
  - cbn [files write_file]. apply lookup_insert_eq.
  - intros other. unfold save. exec_unfold. cbn [files write_file].
    rewrite lookup_insert_eq. by rewrite bool_decide_eq_true_2 by (by eexists).
Qed.

(** A successful [save] writes the serialization of the map to the path and
    nothing else: every other file and the events are as before.  Saving to
    the same path again, from any instance, is refused and leaves the file
    with the first serialization. *)
Theorem save_writes_once self d path w :
  embedding_map self = Some d ->
  files w !! path = None ->
  exists w',
    save self path w = (inr tt, w')
    /\ files w' = <[path := jsonpickle_encode d]> (files w)
    /\ events w' = events w
    /\ forall other,
         save other path w' =
         (inl (ValueError
            "output_embedding_path must be a path to a non-existing file."),
          w').
Proof.
  intros Hmap Hfresh. eexists. split; [by apply save_fresh|]. split_and!.
  - cbn [files write_file]. apply insert_insert_eq.
  - reflexivity.
  - intros other. unfold save. exec_unfold. cbn [files write_file].
    rewrite lookup_insert_eq. by rewrite bool_decide_eq_true_2 by (by eexists).
Qed.
End further_persistence.

(** * Further properties of the filter and of the similarity matrix *)

Section further_filtering.
Context `{Externals}.

(** Filtering twice is filtering once, the filter of a concatenation is the
    concatenation of the filters, and what is kept is a sublist of the
    input: nothing is added, repeated or reordered. *)
Theorem filter_symbols_algebra (symbols more : list Symbol) :
  _filter_symbols (_filter_symbols symbols) = _filter_symbols symbols
  /\ _filter_symbols (symbols ++ more) =
     _filter_symbols symbols ++ _filter_symbols more
  /\ _filter_symbols symbols `sublist_of` symbols.
Proof.
  rewrite !filter_symbols_filter. split_and!.
  - by apply list_filter_filter_l.
  - apply filter_app.
  - apply sublist_filter.
Qed.
End further_filtering.

Section index_tables.
Context `{Externals}.
Implicit Types (w : World) (self : SymbolEmbeddingMap).
Implicit Types (d : Dict Symbol SymbolEmbedding).

Lemma dict_get_zip_seq {A} (l : list A) (a i : nat) :
  dict_get (zip (seq a (length l)) l) i =
  if decide (a <= i) then l !! (i - a) else None.
Proof.
  revert a. induction l as [|x l IH]; intros a.
  - simpl. by destruct (decide (a <= i)).
  - cbn [length seq zip zip_with dict_get].
    destruct (decide (a = i)) as [->|Hne].
    + rewrite decide_True by lia. by rewrite Nat.sub_diag.
    + rewrite IH. destruct (decide (a <= i)) as [Hle|Hgt].
      * rewrite decide_True by lia.
        replace (i - a) with (S (i - S a)) by lia. done.
      * by rewrite decide_False by lia.
Qed.

Lemma dict_get_enumerate {A} (l : list A) (i : nat) :
  dict_get (enumerate l) i = l !! i.
Proof.
  unfold enumerate. rewrite dict_get_zip_seq, decide_True by lia.
  by rewrite Nat.sub_0_r.
Qed.

Lemma dict_get_swap_zip_seq {A} `{EqDecision A} (l : list A) (a i : nat)
    (x : A) :
  NoDup l ->
  dict_get ((fun p => (p.2, p.1)) <$> zip (seq a (length l)) l) x = Some i
  <-> a <= i /\ l !! (i - a) = Some x.
Proof.
  revert a. induction l as [|y l IH]; intros a Hnd.
  - simpl. split; [done | by intros [_ ?]].
  - apply NoDup_cons in Hnd as [Hy Hl].
    cbn [length seq zip zip_with fmap list_fmap dict_get fst snd].
    destruct (decide (y = x)) as [->|Hne].
    + split.
      * intros [= <-]. split; [done|]. by rewrite Nat.sub_diag.
      * intros [Hle Hlook]. destruct (decide (i = a)) as [->|Hia]; [done|].
        replace (i - a) with (S (i - S a)) in Hlook by lia.
        cbn [lookup list_lookup] in Hlook.
        destruct Hy. by eapply list_elem_of_lookup_2.
    + change (list_fmap _ _ ?f ?l) with (f <$> l). rewrite (IH (S a) Hl).
      split.
      * intros [Hle Hlook]. split; [lia|].
        replace (i - a) with (S (i - S a)) by lia. done.
      * intros [Hle Hlook]. destruct (decide (i = a)) as [->|Hia].
        -- rewrite Nat.sub_diag in Hlook. by injection Hlook.
        -- split; [lia|].
           replace (i - a) with (S (i - S a)) in Hlook by lia. done.
Qed.

(** [generate_similarity_matrix] on an assigned map, with the tables it
    assigns. *)
Lemma generate_similarity_matrix_run self d w :
  embedding_map self = Some d ->
  exists m,
    generate_similarity_matrix self w =
      (inr (set_symbol_to_index
              (set_index_to_symbol self
                 (dict_comprehension (enumerate (dict_keys d))))
              (dict_comprehension
                 ((fun p => (p.2, p.1)) <$> enumerate (dict_keys d))),
            m),
       add_events
         (cosine_events (vector <$> dict_values d)
            (index_pairs (length (vector <$> dict_values d)))) w).
Proof.
  intros Hmap.
  destruct (similarity_matrix_run (embedding_provider self)
              (vector <$> dict_values d) w) as (m & Hrun & _).
  exists m. unfold generate_similarity_matrix. exec_unfold. rewrite Hmap.
  cbn [embedding_provider set_symbol_to_index set_index_to_symbol].
  by rewrite Hrun.
Qed.

(** The two index tables that [generate_similarity_matrix] assigns number
    the keys of the map in their order, and each is the inverse of the
    other: [index_to_symbol[i]] is [s] exactly when [symbol_to_index[s]] is
    [i], exactly when [s] is the [i]-th key. *)
Theorem index_tables_inverse self d w :
  embedding_map self = Some d ->
  dict_wf d ->
  exists self' m w' i2s s2i,
    generate_similarity_matrix self w = (inr (self', m), w')
    /\ index_to_symbol self' = Some i2s
    /\ symbol_to_index self' = Some s2i
    /\ (forall i s, dict_get i2s i = Some s <-> dict_keys d !! i = Some s)
    /\ (forall i s, dict_get s2i s = Some i <-> dict_keys d !! i = Some s)
    /\ (forall i s, dict_get i2s i = Some s <-> dict_get s2i s = Some i).
Proof.
  intros Hmap Hwf.
  destruct (generate_similarity_matrix_run self d w Hmap) as (m & Hrun).
  assert (dict_comprehension (enumerate (dict_keys d)) =
          enumerate (dict_keys d)) as Hi2s.
  { apply dict_comprehension_wf. unfold dict_wf, dict_keys at 1.
    rewrite enumerate_keys. apply NoDup_seq. }
  assert (dict_comprehension
            ((fun p => (p.2, p.1)) <$> enumerate (dict_keys d)) =
          (fun p => (p.2, p.1)) <$> enumerate (dict_keys d)) as Hs2i.
  { apply dict_comprehension_wf. unfold dict_wf, dict_keys at 1.
    rewrite <- list_fmap_compose.
    change (fst ∘ (fun p : nat * Symbol => (p.2, p.1))) with
      (@snd nat Symbol).
    by rewrite enumerate_values. }
  assert (forall i s, dict_get (enumerate (dict_keys d)) i = Some s <->
                      dict_keys d !! i = Some s) as Hfwd
    by (intros i s; by rewrite dict_get_enumerate).
  assert (forall i s,
            dict_get ((fun p => (p.2, p.1)) <$> enumerate (dict_keys d)) s
              = Some i <-> dict_keys d !! i = Some s) as Hbwd.
  { intros i s. unfold enumerate.
    rewrite (dict_get_swap_zip_seq (dict_keys d) 0 i s Hwf).
    rewrite Nat.sub_0_r.
    split; [by intros [_ ?] | intros ?; split; [lia|done]]. }
  eexists _, m, _, _, _. split; [exact Hrun|].
  cbn [index_to_symbol symbol_to_index set_symbol_to_index
       set_index_to_symbol].
  rewrite Hi2s, Hs2i. split_and!; [done|done|done|done|].
  intros i s. by rewrite Hfwd, Hbwd.
Qed.
End index_tables.

Section request_count.
Context `{Externals}.

Lemma upper_row_length (i a k : nat) :
  length (filter (fun p : nat * nat => p.1 < p.2)
            ((fun j => (i, j)) <$> seq a k)) = (a + k) - Nat.max a (S i).
Proof.
  revert a. induction k as [|k IH]; intros a; [simpl; lia|].
  cbn [seq]. rewrite fmap_cons, filter_cons. cbn [fst snd].
  destruct (decide (i < a)); cbn [length]; rewrite IH; lia.
Qed.

Lemma upper_triangle_length (n k : nat) :
  k <= n ->
  2 * length (filter (fun p : nat * nat => p.1 < p.2)
                (i ← seq 0 k; (fun j => (i, j)) <$> seq 0 n))
  + k * (k + 1) = 2 * k * n.
Proof.
  induction k as [|k IH]; intros Hk; [simpl; lia|].
  rewrite seq_S, bind_app, bind_cons, filter_app, length_app.
  change (@nil nat ≫= _) with (@nil (nat * nat)). rewrite app_nil_r.
  rewrite upper_row_length. cbn [plus]. specialize (IH ltac:(lia)).
  replace (0 + n - Nat.max 0 (S k)) with (n - S k) by lia.
  assert (exists r, n = S k + r) as [r ->] by (exists (n - S k); lia).
  replace (S k + r - S k) with r by lia. nia.
Qed.

Lemma elem_of_cosine_events (embeddings : list (list float)) n ev :
  ev ∈ cosine_events embeddings (index_pairs n) ->
  exists i j, i < j /\ j < n
              /\ ev = EvCosineSimilarity (embeddings !!! i) (embeddings !!! j).
Proof.
  unfold cosine_events. intros [[i j] [-> Hin]]%list_elem_of_fmap.
  apply list_elem_of_filter in Hin as [Hlt [_ Hj]%elem_of_index_pairs].
  exists i, j. done.
Qed.

(** On [n] vectors [calculate_similarity_matrix] returns without raising
    after exactly [n (n - 1) / 2] similarity requests, each for a pair of
    vectors at positions [i < j]; in particular none for fewer than two
    vectors. *)
Theorem similarity_request_count (provider : EmbeddingsProvider)
    (embeddings : list (list float)) (w : World) :
  exists m new,
    calculate_similarity_matrix provider embeddings w =
      (inr m, add_events new w)
    /\ square (length embeddings) m
    /\ 2 * length new = length embeddings * (length embeddings - 1)
    /\ forall ev, ev ∈ new ->
         exists i j, i < j /\ j < length embeddings
           /\ ev = EvCosineSimilarity (embeddings !!! i) (embeddings !!! j).
Proof.
  destruct (similarity_matrix_run provider embeddings w)
    as (m & Hrun & Hsq & _).
  eexists m, _. split; [exact Hrun|]. split; [exact Hsq|]. split.
  - unfold cosine_events, index_pairs. rewrite length_fmap.
    pose proof (upper_triangle_length (length embeddings)
                  (length embeddings) ltac:(lia)).
    destruct (length embeddings) as [|n]; [simpl in *; lia|].
    replace (S n - 1) with n by lia. nia.
  - apply elem_of_cosine_events.
Qed.
End request_count.

Section generate_again.
Context `{Externals}.
Implicit Types (w : World) (self : SymbolEmbeddingMap).

Lemma matrix_ext n (m1 m2 : list (list float)) :
  square n m1 -> square n m2 ->
  (forall a b, a < n -> b < n -> entry_of m1 a b = entry_of m2 a b) ->
  m1 = m2.
Proof.
  intros Hsq1 Hsq2 Hentries. apply list_eq. intros a.
  destruct (decide (a < n)) as [Ha|Ha].
  - destruct (square_lookup n m1 a Hsq1 Ha) as (row1 & Hrow1 & Hlen1).
    destruct (square_lookup n m2 a Hsq2 Ha) as (row2 & Hrow2 & Hlen2).
    rewrite Hrow1, Hrow2. f_equal. apply list_eq. intros b.
    destruct (decide (b < n)) as [Hb|Hb].
    + specialize (Hentries a b Ha Hb). unfold entry_of in Hentries.
      by rewrite Hrow1, Hrow2 in Hentries.
    + by rewrite !lookup_ge_None_2 by lia.
  - destruct Hsq1 as [Hlen1 _], Hsq2 as [Hlen2 _].
    by rewrite !lookup_ge_None_2 by lia.
Qed.

(** Nothing is cached: calling [generate_similarity_matrix] once more returns
    the same matrix and leaves the instance as the first call left it, after
    making the same similarity requests again. *)
Theorem generate_similarity_matrix_again self d w :
  embedding_map self = Some d ->
  exists self' m new,
    generate_similarity_matrix self w = (inr (self', m), add_events new w)
    /\ generate_similarity_matrix self' (add_events new w) =
       (inr (self', m), add_events new (add_events new w))
    /\ 2 * length new = length d * (length d - 1).
Proof.
  intros Hmap.
  destruct (similarity_matrix_run (embedding_provider self)
              (vector <$> dict_values d) w) as (m & Hrun & Hinv).
  destruct (similarity_matrix_run (embedding_provider self)
              (vector <$> dict_values d)
              (add_events
                 (cosine_events (vector <$> dict_values d)
                    (index_pairs (length (vector <$> dict_values d)))) w))
    as (m2 & Hrun2 & Hinv2).
  assert (m2 = m) as ->.
  { destruct Hinv as [Hsq Hentries], Hinv2 as [Hsq2 Hentries2].
    eapply matrix_ext; [exact Hsq2 | exact Hsq |].
    intros a b Ha Hb. by rewrite Hentries, Hentries2. }
  eexists _, m, _. split_and!.
  - unfold generate_similarity_matrix. exec_unfold. rewrite Hmap.
    cbn [embedding_provider set_symbol_to_index set_index_to_symbol].
    by rewrite Hrun.
  - unfold generate_similarity_matrix. exec_unfold.
    cbn [embedding_map embedding_provider set_symbol_to_index
         set_index_to_symbol]. rewrite Hmap.
    cbn [embedding_provider set_symbol_to_index set_index_to_symbol].
    by rewrite Hrun2.
  - unfold cosine_events, index_pairs. rewrite !length_fmap.
    assert (length (dict_values d) = length d) as ->
      by (unfold dict_values; by rewrite length_fmap).
    pose proof (upper_triangle_length (length d) (length d) ltac:(lia)).
    destruct (length d) as [|n]; [simpl in *; lia|].
    replace (S n - 1) with n by lia. nia.
Qed.
End generate_again.

(** * The tool wrapper *)

Section writer_tool_facts.
Context `{PythonWriter}.
Implicit Types (s piece raw : list char) (pieces : list (list char)).
Implicit Types (sep c : char).

Lemma split_cons_case sep s :
  exists piece pieces, split sep s = piece :: pieces.
Proof.
  induction s as [|c s (piece & pieces & IH)]; simpl; [by eexists _, _|].
  destruct (decide (c = sep)); [by eexists _, _|].
  rewrite IH. by eexists _, _.
Qed.

Lemma join_cons sep piece piece' pieces :
  join sep (piece :: piece' :: pieces) =
  piece ++ sep :: join sep (piece' :: pieces).
Proof. reflexivity. Qed.

(** Joining what was split gives the string back. *)
Lemma join_split sep s : join sep (split sep s) = s.
Proof.
  induction s as [|c s IH]; [done|]. cbn [split].
  destruct (split_cons_case sep s) as (piece & pieces & Hsplit).
  rewrite Hsplit in IH |- *. destruct (decide (c = sep)) as [->|Hne].
  - rewrite join_cons. by rewrite IH.
  - destruct pieces as [|piece' pieces].
    + simpl in *. by rewrite IH.
    + rewrite join_cons in IH |- *. by rewrite <- IH.
Qed.

Lemma split_head sep s piece pieces :
  split sep s = piece :: pieces -> sep ∉ piece.
Proof.
  revert piece pieces. induction s as [|c s IH]; intros piece pieces.
  - intros [= <- <-]. apply not_elem_of_nil.
  - cbn [split]. destruct (decide (c = sep)) as [->|Hne].
    + intros [= <- <-]. apply not_elem_of_nil.
    + destruct (split_cons_case sep s) as (piece0 & pieces0 & Hsplit).
      rewrite Hsplit. intros [= <- <-].
      apply not_elem_of_cons. split; [done|]. by eapply IH.
Qed.

Lemma split_app sep piece raw :
  sep ∉ piece -> split sep (piece ++ sep :: raw) = piece :: split sep raw.
Proof.
  induction piece as [|c piece IH]; intros Hnin.
  - simpl. by rewrite decide_True.
  - apply not_elem_of_cons in Hnin as [Hne Hnin].
    rewrite <- app_comm_cons. cbn [split].
    rewrite decide_False by done. by rewrite IH.
Qed.

Lemma split_without sep s : sep ∉ s -> split sep s = [s].
Proof.
  induction s as [|c s IH]; intros Hnin; [done|].
  apply not_elem_of_cons in Hnin as [Hne Hnin].
  cbn [split]. rewrite decide_False by done. by rewrite IH.
Qed.

Lemma lstrip_spec s :
  exists pre,
    s = pre ++ lstrip s
    /\ Forall (fun c => isspace c = true) pre
    /\ forall c, head (lstrip s) = Some c -> isspace c = false.
Proof.
  induction s as [|c s (pre & Hs & Hpre & Hhead)]; simpl.
  - by exists [].
  - destruct (isspace c) eqn:Hc.
    + exists (c :: pre).
      split_and!; [by rewrite Hs at 1 | by constructor | done].
    + exists []. split_and!; [done | constructor |]. by intros c' [= <-].
Qed.

Lemma head_app_Some {A} (l k : list A) (x : A) :
  head l = Some x -> head (l ++ k) = Some x.
Proof. by destruct l. Qed.

(** [strip] removes whitespace at both ends and nothing else. *)
Lemma strip_spec s :
  exists pre post,
    s = pre ++ strip s ++ post
    /\ Forall (fun c => isspace c = true) pre
    /\ Forall (fun c => isspace c = true) post
    /\ (forall c, head (strip s) = Some c -> isspace c = false)
    /\ (forall c, last (strip s) = Some c -> isspace c = false).
Proof.
  unfold strip.
  destruct (lstrip_spec s) as (pre & Hs & Hpre & Hhead).
  destruct (lstrip_spec (reverse (lstrip s))) as (tsop & Hrev & Htsop & Hlast).
  assert (lstrip s = reverse (lstrip (reverse (lstrip s))) ++ reverse tsop)
    as Hmid.
  { rewrite <- reverse_app, <- Hrev. by rewrite reverse_involutive. }
  exists pre, (reverse tsop). split_and!.
  - by rewrite <- Hmid.
  - done.
  - apply Forall_reverse. done.
  - intros c Hc. apply Hhead. rewrite Hmid. by apply head_app_Some.
  - intros c Hc. apply Hlast. by rewrite <- last_reverse, Hc.
Qed.

(** The arguments [python_writer_wrapper] hands to [modify_code_state]: the
    path is the input up to its first comma and holds no comma; the code is
    empty when the input has no comma, and otherwise everything after the
    first comma, later commas included, stripped.  The wrapper raises only
    what [modify_code_state] raises, and otherwise returns ["Success"] with
    the writer as [modify_code_state] left it. *)
Theorem python_writer_wrapper_arguments (input_str : list char)
    (writer : Writer) :
  exists path code,
    python_writer_wrapper input_str writer =
      match modify_code_state path code writer with
      | (inl e, writer') => (inl e, writer')
      | (inr _, writer') => (inr (literal "Success"), writer')
      end
    /\ (comma ∉ path)
    /\ (((comma ∉ input_str) /\ path = input_str /\ code = [])
        \/ (exists raw,
              input_str = path ++ comma :: raw /\ code = strip raw)).
Proof.
  unfold python_writer_wrapper.
  destruct (split_cons_case comma input_str) as (path & pieces & Hsplit).
  pose proof (join_split comma input_str) as Hjoin.
  rewrite Hsplit in Hjoin |- *. cbn [lookup list_lookup drop].
  eexists path, _. split; [reflexivity|].
  split; [by eapply split_head|].
  destruct pieces as [|piece pieces].
  - left. simpl in Hjoin. subst path. split_and!; [|done|done].
    by eapply split_head.
  - right. exists (join comma (piece :: pieces)).
    rewrite join_cons in Hjoin. done.
Qed.

(** Reading back an input put together from a path without comma, a comma
    and some text: the wrapper hands over that path as it is, and the text
    without the whitespace at its two ends, which is all that is removed. *)
Theorem python_writer_wrapper_round_trip (path raw : list char)
    (writer : Writer) :
  comma ∉ path ->
  exists pre post,
    python_writer_wrapper (path ++ comma :: raw) writer =
      match modify_code_state path (strip raw) writer with
      | (inl e, writer') => (inl e, writer')
      | (inr _, writer') => (inr (literal "Success"), writer')
      end
    /\ raw = pre ++ strip raw ++ post
    /\ Forall (fun c => isspace c = true) pre
    /\ Forall (fun c => isspace c = true) post
    /\ (forall c, head (strip raw) = Some c -> isspace c = false)
    /\ (forall c, last (strip raw) = Some c -> isspace c = false).
Proof.
  intros Hpath.
  destruct (strip_spec raw) as (pre & post & Hraw & Hpre & Hpost & Hh & Hl).
  exists pre, post. split; [|done].
  unfold python_writer_wrapper. rewrite split_app by done.
  cbn [lookup list_lookup drop]. by rewrite drop_0, join_split.
Qed.
End writer_tool_facts.

(** * The properties on the sample instance *)

Section sample_runs.
Import Sample.
#[local] Existing Instance Zfloat.
#[local] Existing Instance externals.

Lemma save_load_round_trip_witness :
  exists w1 loaded w2 d',
    save (instance (Some stored)) "out.json" world0 = (inr tt, w1)
    /\ load "out.json" w1 = (inr loaded, w2)
    /\ embedding_map loaded = Some d'
    /\ dict_wf d'
    /\ d' ≡ₚ stored
    /\ forall t, t ∈ triples d' <-> t ∈ triples stored.
Proof.
  apply (save_load_round_trip (instance (Some stored)) stored "out.json"
           world0 (prod_map uri id <$> reverse stored)).
  - reflexivity.
  - unfold dict_wf. apply (bool_decide_unpack (NoDup (dict_keys stored))).
    vm_compute. exact I.
  - reflexivity.
  - intros [u] _. reflexivity.
  - reflexivity.
  - apply fmap_Permutation, reverse_Permutation.
Defined.

Lemma generate_similarity_matrix_spec_witness :
  exists self' m,
    generate_similarity_matrix (instance (Some stored3)) world0 =
      (inr (self', m),
       add_events
         (cosine_events (vector <$> dict_values stored3)
            (index_pairs (length stored3))) world0)
    /\ embedding_map self' = Some stored3
    /\ index_to_symbol self' = Some (enumerate (dict_keys stored3))
    /\ square (length stored3) m
    /\ (forall i, i < length stored3 -> entry_of m i i = Some float_zero)
    /\ (forall i j, i < length stored3 -> j < length stored3 ->
          entry_of m i j = entry_of m j i)
    /\ (forall i j ei ej,
          i < j ->
          dict_values stored3 !! i = Some ei ->
          dict_values stored3 !! j = Some ej ->
          entry_of m i j = Some (dot (vector ei) (vector ej))).
Proof.
  apply (generate_similarity_matrix_spec (instance (Some stored3)) stored3
           world0).
  reflexivity.
Defined.
Lemma update_embeddings_unchanged_source_witness :
  A ∈ [A; B; C]
  /\ dict_get stored A = Some (entry A [13%Z; 1%Z] "class A: pass")
  /\ exists d' new,
       update_embeddings converter [A; B; C] (instance (Some stored)) world0 =
         (inr (set_embedding_map (instance (Some stored)) d'),
          add_events new world0)
       /\ (forall text, EvGetEmbedding A text ∉ new)
       /\ dict_get d' A = Some (entry A [13%Z; 1%Z] "class A: pass").
Proof.
  split; [apply elem_of_cons; by left|]. split; [reflexivity|].
  apply (update_embeddings_unchanged_source converter [A; B; C]
           (instance (Some stored)) world0 stored A
           (entry A [13%Z; 1%Z] "class A: pass")).
  - reflexivity.
  - apply elem_of_cons; by left.
  - reflexivity.
  - reflexivity.
Defined.

Lemma update_embeddings_new_or_changed_witness :
  exists d' new,
    update_embeddings converter [A; B; C] (instance (Some stored)) world0 =
      (inr (set_embedding_map (instance (Some stored)) d'),
       add_events new world0)
    /\ dict_get d' C =
         Some (entry C [30%Z; 1%Z] "def run(self, arg): return arg")
    /\ EvGetEmbedding C "def run(self, arg): return arg" ∈ new.
Proof.
  apply (update_embeddings_new_or_changed converter [A; B; C]
           (instance (Some stored)) world0 stored C
           "def run(self, arg): return arg" [30%Z; 1%Z]).
  - reflexivity.
  - apply elem_of_cons; right. apply elem_of_cons; right.
    apply elem_of_cons; by left.
  - right. exists (entry C [3%Z; 4%Z] "def run(self): pass").
    split; [reflexivity | discriminate].
  - reflexivity.
  - reflexivity.
Defined.

Lemma update_embeddings_frame_witness :
  exists d' new,
    update_embeddings converter [B; C] (instance (Some stored)) world0 =
      (inr (set_embedding_map (instance (Some stored)) d'),
       add_events new world0)
    /\ (forall s, s ∉ [B; C] -> dict_get d' s = dict_get stored s)
    /\ (forall s, s ∈ dict_keys stored -> s ∈ dict_keys d')
    /\ dict_keys stored `prefix_of` dict_keys d'.
Proof.
  apply (update_embeddings_frame converter [B; C] (instance (Some stored))
           world0 stored).
  reflexivity.
Defined.

Lemma persistence_preconditions_witness :
  (save (instance (Some stored)) "out.json" world1 =
     (inl (ValueError
        "output_embedding_path must be a path to a non-existing file."),
      world1)
   /\ (files (save (instance (Some stored)) "out.json" world1).2)
        !! "out.json" = Some "{}")
  /\ (load "out.json" world0 =
        (inl (ValueError
           "input_embedding_path must be a path to an existing file."),
         world0)
      /\ files (load "out.json" world0).2 = files world0).
Proof.
  split.
  - apply (proj1 (persistence_preconditions (instance (Some stored))
                    "out.json" world1) "{}").
    reflexivity.
  - apply (proj2 (persistence_preconditions (instance (Some stored))
                    "out.json" world0)).
    reflexivity.
Defined.

(** The provider refuses the text of [B], one of three candidates: the map
    built has the other two, in their order. *)
Lemma partial_failure_witness :
  embeds provider converter A = true
  /\ embeds provider converter B = false
  /\ embeds provider converter C = true
  /\ exists built w',
       _build_embedding_map (instance None) converter [A; B; C] world0 =
         (inr built, w')
       /\ dict_keys built = [A; C].
Proof.
  split; [reflexivity|]. split; [reflexivity|]. split; [reflexivity|].
  destruct (proj1 (partial_failure converter [A; B; C] (instance None)
                     world0))
    as (built & w' & Hrun & _ & _ & _ & Horder).
  exists built, w'. split; [exact Hrun|].
  rewrite Horder.
  - vm_compute. reflexivity.
  - apply (bool_decide_unpack (NoDup (_filter_symbols [A; B; C]))).
    vm_compute. exact I.
Defined.

Lemma filter_symbols_retained_witness :
  _filter_symbols [A; B; T; P; C] = [A; B; C]
  /\ (T ∉ _filter_symbols [A; B; T; P; C])
  /\ (P ∉ _filter_symbols [A; B; T; P; C]).
Proof.
  destruct (filter_symbols_retained [A; B; T; P; C])
    as (Hfilter & Htest & Hkind & _).
  split; [|split].
  - rewrite Hfilter. vm_compute. reflexivity.
  - apply Htest. apply contains_spec. vm_compute. reflexivity.
  - apply Hkind. vm_compute. reflexivity.
Defined.

Lemma neither_mode_unassigned_witness :
  exists self,
    __init__ (Some provider) false false no_kwargs world0 = (inr self, world0)
    /\ embedding_map self = None
    /\ update_embeddings converter [A; D] self world0 =
         (inr self,
          add_events
            [EvLogError A (AttributeError "embedding_map");
             EvLogError D (CollaboratorError "unknown symbol")] world0)
    /\ (exists d' new,
          update_embeddings converter [A; D] (set_embedding_map self [])
            world0 = (inr (set_embedding_map self d'), add_events new world0)
          /\ dict_get d' A = Some (entry A [13%Z; 1%Z] "class A: pass")).
Proof.
  destruct (neither_mode_unassigned (Some provider) no_kwargs converter
              [A; D] world0)
    as (self & Hinit & Hnone & Hrun & _ & (d' & new' & Hrun' & Hget)).
  exists self. split; [exact Hinit|]. split; [exact Hnone|]. split.
  - exact Hrun.
  - exists d', new'. split; [exact Hrun'|].
    apply (Hget A "class A: pass" [13%Z; 1%Z]).
    + apply elem_of_cons; by left.
    + reflexivity.
    + injection Hinit as <-. reflexivity.
Defined.

(** The claim that an instance built with neither flag can be populated by
    [update_embeddings] fails: [A] resolves and its text is embedded, yet
    after the update the map is still unassigned. *)
Lemma neither_mode_update_counterexample :
  exists self self' w',
    __init__ (Some provider) false false no_kwargs world0 = (inr self, world0)
    /\ convert_to_fst_object converter A = inr "class A: pass"
    /\ openai_get_embedding provider "class A: pass" = inr [13%Z; 1%Z]
    /\ update_embeddings converter [A] self world0 = (inr self', w')
    /\ embedding_map self' = None
    /\ ~ (exists d, embedding_map self' = Some d /\ A ∈ dict_keys d).
Proof.
  eexists _, _, _. split; [reflexivity|]. split; [reflexivity|].
  split; [reflexivity|]. split; [vm_compute; reflexivity|].
  split; [reflexivity|]. intros (d & Hd & _). discriminate Hd.
Qed.

(** The constructor's three messages on the sample instance. *)
Example init_configuration_errors_sample :
  (__init__ None true true no_kwargs world0).1 =
    inl (ValueError
      "Cannot specify both build_new_embedding_map and load_embedding_map")
  /\ (__init__ None true false no_kwargs world0).1 =
    inl (ValueError "Missing required argument: 'symbol_converter'")
  /\ (__init__ None false true no_kwargs world0).1 =
    inl (ValueError "Missing required argument: 'embedding_map'").
Proof. repeat split. Qed.

(** The matrix of the three sample vectors. *)
Example similarity_matrix_sample :
  (generate_similarity_matrix (instance (Some stored3)) world0).1 =
  inr ({| embedding_provider := provider;
          embedding_map := Some stored3;
          index_to_symbol := Some [(0, A); (1, C); (2, B)];
          symbol_to_index := Some [(A, 0); (C, 1); (B, 2)] |},
       [[0; 43; 28]; [43; 0; 14]; [28; 14; 0]]%Z).
Proof. vm_compute. reflexivity. Qed.
End sample_runs.


(** * The further properties on the sample instance *)

Section more_sample_runs.
Import Sample.
#[local] Existing Instance Zfloat.
#[local] Existing Instance externals.
#[local] Existing Instance latin1.
#[local] Existing Instance recorder.

Lemma update_embeddings_second_run_witness :
  exists self1 w1 new2,
    update_embeddings converter [A; B; C] (instance (Some stored)) world0 =
      (inr self1, w1)
    /\ update_embeddings converter [A; B; C] self1 w1 =
       (inr self1, add_events new2 w1)
    /\ forall s text,
         EvGetEmbedding s text ∈ new2 ->
         embeds provider converter s = false.
Proof.
  apply (update_embeddings_second_run converter [A; B; C]
           (instance (Some stored)) world0 stored).
  reflexivity.
Defined.

Lemma update_embeddings_consistent_witness :
  exists d' new,
    update_embeddings converter [B; C] (instance (Some embedded_map)) world0 =
      (inr (set_embedding_map (instance (Some embedded_map)) d'),
       add_events new world0)
    /\ dict_wf d'
    /\ consistent provider d'.
Proof.
  apply (update_embeddings_consistent converter [B; C]
           (instance (Some embedded_map)) world0 embedded_map).
  - reflexivity.
  - apply (bool_decide_unpack (NoDup (dict_keys embedded_map))).
    vm_compute. exact I.
  - intros s e. unfold embedded_map. cbn [dict_get].
    destruct (decide (A = s)) as [<-|_]; [|discriminate].
    intros [= <-]. split; reflexivity.
Defined.

Lemma update_embeddings_accounting_witness :
  exists d' new,
    update_embeddings converter [A; B; C] (instance (Some stored)) world0 =
      (inr (set_embedding_map (instance (Some stored)) d'),
       add_events new world0)
    /\ (forall s text, EvGetEmbedding s text ∈ new ->
          s ∈ [A; B; C] /\ convert_to_fst_object converter s = inr text)
    /\ (forall s e, EvLogError s e ∈ new ->
          s ∈ [A; B; C] /\ embeds provider converter s = false)
    /\ (forall a b, EvCosineSimilarity a b ∉ new)
    /\ length (List.filter is_request new) <= length [A; B; C].
Proof.
  apply (update_embeddings_accounting converter [A; B; C]
           (instance (Some stored)) world0 stored).
  reflexivity.
Defined.

Lemma load_result_witness :
  exists loaded,
    load "out.json" saved_world = (inr loaded, saved_world)
    /\ embedding_provider loaded = provider
    /\ index_to_symbol loaded = None
    /\ symbol_to_index loaded = None.
Proof.
  assert (exists loaded,
            load "out.json" saved_world = (inr loaded, saved_world))
    as [loaded Hload] by (eexists; vm_compute; reflexivity).
  exists loaded. split; [exact Hload|].
  destruct (load_result "out.json" saved_world loaded saved_world Hload)
    as (Hprovider & Hi2s & Hs2i & _).
  split; [exact Hprovider|]. split; [exact Hi2s | exact Hs2i].
Defined.

Lemma load_errors_witness :
  load "out.json" world1 =
    (inl (CollaboratorError "not a pickled map"), world1)
  /\ @load Zfloat strict_externals "out.json" world1 =
       (inl (ValueError "Invalid symbol_str: oops"), world1).
Proof.
  split.
  - apply (proj1 (load_errors "out.json" world1 "{}" eq_refl)).
    reflexivity.
  - apply (proj2 (@load_errors Zfloat strict_externals "out.json" world1
                    "{}" eq_refl)
             [("pkg/mod/A#", entry A [13%Z; 1%Z] "class A: pass")]
             "oops" (entry B [2%Z; 2%Z] "class B: pass")
             [("pkg/mod/C#run().",
               entry C [3%Z; 4%Z] "def run(self): pass")]).
    + reflexivity.
    + constructor; [|constructor]. by eexists.
    + reflexivity.
Defined.

Lemma save_unassigned_witness :
  save (instance None) "out.json" world0 =
    (inl (AttributeError "embedding_map"), write_file "out.json" "" world0)
  /\ files (write_file "out.json" "" world0) !! "out.json" = Some ""
  /\ forall other,
       save other "out.json" (write_file "out.json" "" world0) =
       (inl (ValueError
          "output_embedding_path must be a path to a non-existing file."),
        write_file "out.json" "" world0).
Proof.
  apply (save_unassigned (instance None) "out.json" world0); reflexivity.
Defined.

Lemma save_writes_once_witness :
  exists w',
    save (instance (Some stored)) "out.json" world0 = (inr tt, w')
    /\ files w' = <[ "out.json" := jsonpickle_encode stored ]> (files world0)
    /\ events w' = events world0
    /\ forall other,
         save other "out.json" w' =
         (inl (ValueError
            "output_embedding_path must be a path to a non-existing file."),
          w').
Proof.
  apply (save_writes_once (instance (Some stored)) stored "out.json" world0);
    reflexivity.
Defined.

Lemma index_tables_inverse_witness :
  exists self' m w' i2s s2i,
    generate_similarity_matrix (instance (Some stored3)) world0 =
      (inr (self', m), w')
    /\ index_to_symbol self' = Some i2s
    /\ symbol_to_index self' = Some s2i
    /\ (forall i s, dict_get i2s i = Some s <->
                    dict_keys stored3 !! i = Some s)
    /\ (forall i s, dict_get s2i s = Some i <->
                    dict_keys stored3 !! i = Some s)
    /\ (forall i s, dict_get i2s i = Some s <-> dict_get s2i s = Some i).
Proof.
  apply (index_tables_inverse (instance (Some stored3)) stored3 world0).
  - reflexivity.
  - apply (bool_decide_unpack (NoDup (dict_keys stored3))).
    vm_compute. exact I.
Defined.

Lemma generate_similarity_matrix_again_witness :
  exists self' m new,
    generate_similarity_matrix (instance (Some stored3)) world0 =
      (inr (self', m), add_events new world0)
    /\ generate_similarity_matrix self' (add_events new world0) =
       (inr (self', m), add_events new (add_events new world0))
    /\ 2 * length new = length stored3 * (length stored3 - 1).
Proof.
  apply (generate_similarity_matrix_again (instance (Some stored3)) stored3
           world0).
  reflexivity.
Defined.

Lemma python_writer_wrapper_round_trip_witness :
  exists pre post,
    python_writer_wrapper
      (chars "some.path" ++ comma :: chars " sample_code") (calls []) =
      (inr (literal "Success"), calls [("some.path", "sample_code")])
    /\ chars " sample_code" = pre ++ chars "sample_code" ++ post.
Proof.
  destruct (python_writer_wrapper_round_trip (chars "some.path")
              (chars " sample_code") (calls []))
    as (pre & post & Hrun & Hraw & _).
  - apply (bool_decide_unpack (comma ∉ chars "some.path")).
    vm_compute. exact I.
  - exists pre, post. split; [exact Hrun | exact Hraw].
Defined.

(** The call of the source's own test: the input ["some.path, sample_code"]
    reaches [modify_code_state] as ["some.path"] and ["sample_code"]. *)
Example python_writer_wrapper_sample :
  python_writer_wrapper (chars "some.path, sample_code") (calls []) =
  (inr (literal "Success"), calls [("some.path", "sample_code")]).
Proof. vm_compute. reflexivity. Qed.
End more_sample_runs.
